(** * pre-commit-go: the hook coordinator and the check runner

    A shallow embedding of [runChecks], [runPreCommit] and [runPrePush]
    (package main) together with the pieces of the Go runtime they rely on:
    the buffered channel [errs], [time.Duration] arithmetic, [bufio]'s
    [ReadString] and the regular expression [rePrePush].

    The repository behind [scm.Repo], the checks behind [checks.Check] and
    the configuration behind [checks.Config] live in other packages; they
    are taken as parameters, so every theorem below holds for all of their
    implementations.  What the program does to them is recorded in a trace
    of events. *)

From Stdlib Require Import ZArith List String Ascii Bool Arith Lia Permutation.
From Stdlib Require Import Sorted.
From Stdlib Require DecimalString DecimalPos.
Import ListNotations.

Local Open Scope string_scope.
Local Open Scope nat_scope.
Local Open Scope list_scope.

(** ** Go values *)

(** [scm.Commit] is a string type. *)
Definition Commit : Type := string.

(** const gitNilCommit *)
Definition gitNilCommit : Commit := "0000000000000000000000000000000000000000".

(** Go [error] values.  [None : option error] is the nil error.  Errors
    made by [fmt.Errorf] keep their arguments instead of the formatted
    text. *)
Inductive error : Type :=
| io_EOF                                          (* io.EOF *)
| ErrOther (msg : string)                         (* an error made outside package main *)
| ErrUnexpectedStdin (line : string)              (* "unexpected stdin for pre-push: %q" *)
| ErrCheckTook (name : string) (duration : Z)     (* "check %s took %1.2fs" *)
| ErrChecksFailed (duration : Z).                 (* "checks failed in %1.2fs" *)

Definition isEOF (e : error) : bool :=
  match e with
  | io_EOF => true
  | _ => false
  end.

(** [checks.Mode] *)
Inductive Mode : Type := PreCommit | PrePush | ContinuousIntegration | Lint.

(** ** time.Duration: int64 nanoseconds *)

Definition int64 (z : Z) : Z := ((z + 2 ^ 63) mod 2 ^ 64 - 2 ^ 63)%Z.

(** time.Second *)
Definition Second : Z := 1000000000%Z.

(** [time.Duration(n) * time.Second], with the wrap-around of int64. *)
Definition Seconds (n : Z) : Z := int64 (n * Second).

(** [t.Sub(u)] saturates at the extreme durations. *)
Definition Sub (elapsed : Z) : Z :=
  Z.max (- 2 ^ 63) (Z.min (2 ^ 63 - 1) elapsed).

(** ** regexp: the fragment [rePrePush] is written in *)

Definition newline : ascii := "010"%char.

(** [.] : any character but a newline (no [s] flag). *)
Definition dot (c : ascii) : bool := negb (Ascii.eqb c newline).

(** [[0-9a-f]] *)
Definition hex (c : ascii) : bool :=
  let n := nat_of_ascii c in
  (((48 <=? n) && (n <=? 57)) || ((97 <=? n) && (n <=? 102)))%nat.

Inductive atom : Type :=
| Lit (c : ascii)                        (* a literal character *)
| LazyPlus (class : ascii -> bool)       (* the group (x+?) *)
| Repeat (n : nat) (class : ascii -> bool). (* the group (x{n}) *)

Fixpoint take (n : nat) (s : string) : option (string * string) :=
  match n with
  | 0 => Some (EmptyString, s)
  | S n' =>
      match s with
      | EmptyString => None
      | String c s' =>
          match take n' s' with
          | Some (p, r) => Some (String c p, r)
          | None => None
          end
      end
  end.

Fixpoint all (p : ascii -> bool) (s : string) : bool :=
  match s with
  | EmptyString => true
  | String c s' => p c && all p s'
  end.

(** The lazy group [(x+?)] followed by the rest of the pattern [k],
    leftmost-first: the group first tries to stop after one character and
    takes one more each time [k] fails on what is left.  [seen] is what the
    group holds so far. *)
Fixpoint lazyPlus (class : ascii -> bool) (k : string -> option (list string))
  (seen : string) (s : string) : option (list string) :=
  match s with
  | EmptyString => None
  | String d s' =>
      if class d
      then
        let g := (seen ++ String d EmptyString)%string in
        match k s' with
        | Some gs => Some (g :: gs)
        | None => lazyPlus class k g s'
        end
      else None
  end.

(** A backtracking matcher for [^ atoms $].  On success it gives the text
    of the groups, in order. *)
Fixpoint matchAtoms (atoms : list atom) : string -> option (list string) :=
  match atoms with
  | [] =>
      fun s =>
        match s with
        | EmptyString => Some []
        | String _ _ => None
        end
  | Lit c :: rest =>
      fun s =>
        match s with
        | EmptyString => None
        | String d s' => if Ascii.eqb c d then matchAtoms rest s' else None
        end
  | Repeat n class :: rest =>
      fun s =>
        match take n s with
        | Some (g, s') =>
            if all class g
            then option_map (cons g) (matchAtoms rest s')
            else None
        | None => None
        end
  | LazyPlus class :: rest => lazyPlus class (matchAtoms rest) EmptyString
  end.

(** var rePrePush = regexp.MustCompile("^(.+?) ([0-9a-f]{40}) (.+?) ([0-9a-f]{40})$") *)
Definition rePrePush : list atom :=
  [LazyPlus dot; Lit " "; Repeat 40 hex; Lit " ";
   LazyPlus dot; Lit " "; Repeat 40 hex].

(** [re.FindStringSubmatch(s)]: the whole match followed by the groups, or
    nil. *)
Definition FindStringSubmatch (re : list atom) (s : string) : list string :=
  match matchAtoms re s with
  | Some groups => s :: groups
  | None => []
  end.

(** The number of groups of a pattern. *)
Definition isGroup (a : atom) : bool :=
  match a with
  | Lit _ => false
  | LazyPlus _ => true
  | Repeat _ _ => true
  end.

Definition groups (atoms : list atom) : nat := List.length (filter isGroup atoms).

(** ** bufio.Reader over os.Stdin *)

(** The bytes still to come and the error the underlying read ends with
    ([io.EOF] when the pipe is closed). *)
Record Reader : Type := { unread : string; readErr : error }.

(** The successive results of [bio.ReadString('\n')] that come with a nil
    error: the lines of the input, each with its newline.  Bytes after the
    last newline come with [readErr] and are dropped by the caller. *)
Fixpoint linesFrom (seen : string) (s : string) : list string :=
  match s with
  | EmptyString => []
  | String c s' =>
      if Ascii.eqb c newline
      then (seen ++ String c EmptyString)%string :: linesFrom EmptyString s'
      else linesFrom (seen ++ String c EmptyString)%string s'
  end.

Definition readLines (bio : Reader) : list string :=
  linesFrom EmptyString (unread bio).

(** [line[:len(line)-1]] *)
Definition dropLast (line : string) : string :=
  substring 0 (String.length line - 1) line.

(** ** The buffered channel [errs] and the goroutines that send on it

    Nothing receives from [errs] before [wg.Wait()] returns, so until then
    a send succeeds while the buffer has room and blocks for ever once it
    is full.  A goroutine is the queue of the sends it still has to do; it
    calls [wg.Done()] when the queue is empty. *)

Inductive outcome (A : Type) : Type :=
| Done (a : A)    (* control comes back with a *)
| Hung.           (* blocked for ever *)
Arguments Done {A} a.
Arguments Hung {A}.

(** The [k]-th goroutine that still has something to send does its next
    send (the last such goroutine when there are not that many). *)
Fixpoint pick (k : nat) (gs : list (list error))
  : option (error * list (list error)) :=
  match gs with
  | [] => None
  | [] :: gs' =>
      match pick k gs' with
      | Some (e, gs'') => Some (e, [] :: gs'')
      | None => None
      end
  | (e :: q) :: gs' =>
      match k with
      | 0 => Some (e, q :: gs')
      | S k' =>
          match pick k' gs' with
          | Some (e', gs'') => Some (e', (e :: q) :: gs'')
          | None => Some (e, q :: gs')
          end
      end
  end.

(** [wg.Wait()]: let the goroutines run, in the order [sched] chooses,
    until all are done or one of them blocks on the full channel.  [n]
    bounds the number of sends still to do. *)
Fixpoint wait (n : nat) (sched : list nat) (capacity : nat)
  (gs : list (list error)) (buf : list error) : outcome (list error) :=
  match n with
  | 0 => Done buf
  | S n' =>
      match pick (hd 0 sched) gs with
      | None => Done buf
      | Some (e, gs') =>
          if List.length buf <? capacity
          then wait n' (tl sched) capacity gs' (buf ++ [e])
          else Hung
      end
  end.

(** ** The collaborators *)

(** [scm.Repo], the methods package main calls.  [R] is the state of the
    repository and its working tree, [change] what a non-nil [scm.Change]
    holds; nil is [None]. *)
Class Repo (R change : Type) : Type := {
  HEAD : R -> Commit;
  Ref : R -> string;
  Stash : R -> (bool * option error) * R;
  Checkout : string -> R -> option error * R;
  Between : Commit -> Commit -> list string -> R
            -> (option change * option error) * R;
  Restore : R -> option error * R
}.

(** The [k]-th element of [l] taken out (the last one when there are not
    that many). *)
Fixpoint takeAt {A : Type} (k : nat) (l : list A) : option (A * list A) :=
  match l with
  | [] => None
  | x :: l' =>
      match k with
      | 0 => Some (x, l')
      | S k' =>
          match takeAt k' l' with
          | Some (y, rest) => Some (y, x :: rest)
          | None => Some (x, l')
          end
      end
  end.

(** A list in an order of the runtime's choice: the goroutines a loop
    started, in the order in which they run; the keys of a map, in the order
    of for url := range m. *)
Fixpoint rangeKeys {A : Type} (n : nat) (choices : list nat) (keys : list A) : list A :=
  match n with
  | 0 => []
  | S n' =>
      match takeAt (hd 0 choices) keys with
      | None => []
      | Some (x, rest) => x :: rangeKeys n' (tl choices) rest
      end
  end.

(** What the Go runtime and the clock decide: the order in which the
    goroutines of [runChecks] reach their sends, the time between [start]
    and the last [time.Now()] of [runChecks], and the order in which the
    goroutines of [runChecks] call [Run]. *)
Class Runtime (R : Type) : Type := {
  schedule : R -> list nat;
  sinceStart : R -> Z;
  startOrder : R -> list nat
}.

Section Hooks.

Context {R change : Type} {repo : Repo R change} {runtime : Runtime R}.

(** scm.GitInitialCommit and scm.Current *)
Variable GitInitialCommit : Commit.
Variable Current : Commit.

(** [checks.Check]: its name, what [Run] returns and the time between the
    two [time.Now()] of [callRun] around it. *)
Record Check : Type := {
  GetName : string;
  Run : option change -> R -> option error;
  took : option change -> R -> Z
}.

(** [checks.Config], as far as package main reads it. *)
Record Config : Type := {
  EnabledChecks : list Mode -> list Check * Z;
  IgnorePatterns : list string
}.

(** What the program does to the outside, in order. *)
Inductive Event : Type :=
| EvStash (stashed : bool) (err : option error)
| EvCheckout (p : string) (err : option error)
| EvBetween (from to : Commit) (ignore : list string)
            (result : option change) (err : option error)
| EvRestore (err : option error)
| EvRun (name : string) (arg : option change)      (* check.Run(change) *)
| EvPrint (e : error).                             (* fmt.Printf("%s\n", err) *)

Record World : Type := { env : R; trace : list Event }.

(** Computations that change the world and may never come back. *)
Definition M (A : Type) : Type := World -> outcome A * World.

Definition ret {A : Type} (a : A) : M A := fun w => (Done a, w).

Definition bind {A B : Type} (m : M A) (k : A -> M B) : M B :=
  fun w =>
    match m w with
    | (Done a, w') => k a w'
    | (Hung, w') => (Hung, w')
    end.

Notation "x <- m ;; k" := (bind m (fun x => k))
  (at level 100, m at next level, right associativity).

Definition emit (e : Event) : M unit :=
  fun w => (Done tt, {| env := env w; trace := trace w ++ [e] |}).

Definition call {A : Type} (f : R -> A * R) (ev : A -> Event) : M A :=
  fun w =>
    let (a, r) := f (env w) in
    (Done a, {| env := r; trace := trace w ++ [ev a] |}).

Definition ask {A : Type} (f : R -> A) : M A := fun w => (Done (f (env w)), w).

Definition stash : M (bool * option error) :=
  call Stash (fun r => EvStash (fst r) (snd r)).

Definition checkout (p : string) : M (option error) :=
  call (Checkout p) (EvCheckout p).

Definition between (from to : Commit) (ignore : list string)
  : M (option change * option error) :=
  call (Between from to ignore) (fun r => EvBetween from to ignore (fst r) (snd r)).

Definition restore : M (option error) := call Restore EvRestore.

(** ** runChecks *)

(** func callRun.  The lock of a [sync.Locker] check only delays the
    call. *)
Definition callRun (check : Check) (chg : option change) : M (option error * Z) :=
  _ <- emit (EvRun (GetName check) chg) ;;
  err <- ask (Run check chg) ;;
  elapsed <- ask (took check chg) ;;
  ret (err, Sub elapsed).

(** What the goroutine of one check sends on [errs] after [callRun]. *)
Definition sends (maxDuration : Z) (check : Check) (res : option error * Z)
  : list error :=
  let (err, duration) := res in
  (match err with
   | Some e => [e]
   | None => []
   end)
  ++
  (* A check that took too long is a check that failed. *)
  (if (Seconds maxDuration <? duration)%Z
   then [ErrCheckTook (GetName check) duration]
   else []).

(** The goroutines, one per enabled check, in the order in which they
    run. *)
Fixpoint launch (maxDuration : Z) (chg : option change) (enabledChecks : list Check)
  : M (list (list error)) :=
  match enabledChecks with
  | [] => ret []
  | c :: cs =>
      res <- callRun c chg ;;
      gs <- launch maxDuration chg cs ;;
      ret (sends maxDuration c res :: gs)
  end.

(** The receive loop after [wg.Wait()]. *)
Fixpoint drain (buf : list error) (err : option error) : M (option error) :=
  match buf with
  | e :: buf' => _ <- emit (EvPrint e) ;; drain buf' (Some e)
  | [] =>
      match err with
      | Some _ =>
          elapsed <- ask sinceStart ;;
          ret (Some (ErrChecksFailed (Sub elapsed)))
      | None => ret None
      end
  end.

Definition runChecks (config : Config) (chg : option change) (modes : list Mode)
  : M (option error) :=
  let (enabledChecks, maxDuration) := EnabledChecks config modes in
  order <- ask startOrder ;;
  gs <- launch maxDuration chg
          (rangeKeys (List.length enabledChecks) order enabledChecks) ;;
  sched <- ask schedule ;;
  match wait (List.length (List.concat gs)) sched (List.length enabledChecks) gs [] with
  | Hung => fun w => (Hung, w)
  | Done buf => drain buf None
  end.

(** ** runPreCommit *)

Definition runPreCommit (config : Config) : M (option error) :=
  s <- stash ;;
  let (stashed, err) := s in
  match err with
  | Some _ => ret err
  | None =>
      head <- ask HEAD ;;
      b <- between Current head (IgnorePatterns config) ;;
      let (chg, err) := b in
      err <- (match chg with
              | Some _ => runChecks config chg [PreCommit]
              | None => ret err
              end) ;;
      if stashed : bool
      then
        err2 <- restore ;;
        ret (match err with
             | None => err2
             | Some _ => err
             end)
      else ret err
  end.

(** ** runPrePush *)

(** The variables of [runPrePush] the loop changes. *)
Record locals : Type := {
  curr : Commit;
  stashed : bool;
  triedToStash : bool
}.

(** How one turn of the loop ends. *)
Inductive control : Type :=
| Continue (st : locals)
| Return (err : option error) (st : locals).

(** if to != curr { ... }: stash once, then check [to] out. *)
Definition moveTo (to : Commit) (st : locals) : M (option error * locals) :=
  if String.eqb to (curr st)
  then ret (None, st)
  else
    r <- (if triedToStash st
          then ret (None, st)
          else
            s <- stash ;;
            ret (snd s, {| curr := curr st; stashed := fst s; triedToStash := true |})) ;;
    let (err, st1) := r in
    match err with
    | Some _ => ret (err, st1)
    | None =>
        err <- checkout to ;;
        ret (err, {| curr := to; stashed := stashed st1; triedToStash := triedToStash st1 |})
    end.

(** The body of the loop, after [ReadString] gave [line] with a nil error. *)
Definition prePushLine (config : Config) (line : string) (st : locals) : M control :=
  let matches := FindStringSubmatch rePrePush (dropLast line) in
  if negb (List.length matches =? 5)
  then ret (Return (Some (ErrUnexpectedStdin line)) st)
  else
    let from := nth 4 matches EmptyString in
    let to := nth 2 matches EmptyString in
    if String.eqb to gitNilCommit
    then (* It's being deleted. *) ret (Continue st)
    else
      r <- moveTo to st ;;
      let (err, st') := r in
      match err with
      | Some _ => ret (Return err st')
      | None =>
          let from := if String.eqb from gitNilCommit then GitInitialCommit else from in
          b <- between from to (IgnorePatterns config) ;;
          let (chg, err) := b in
          match err with
          | Some _ => ret (Return err st')
          | None =>
              err <- runChecks config chg [PrePush] ;;
              match err with
              | Some _ => ret (Return err st')
              | None => ret (Continue st')
              end
          end
      end.

(** The loop: [lines] are the reads that come with a nil error, [final] the
    error of the read after them. *)
Fixpoint prePushLoop (config : Config) (lines : list string) (final : error)
  (st : locals) : M (option error * locals) :=
  match lines with
  | [] => ret (if isEOF final then None else Some final, st)
  | line :: lines' =>
      c <- prePushLine config line st ;;
      match c with
      | Continue st' => prePushLoop config lines' final st'
      | Return err st' => ret (err, st')
      end
  end.

(** The deferred function. *)
Definition prePushDeferred (previous : Commit) (previousRef : string)
  (err : option error) (st : locals) : M (option error) :=
  err <- (if negb (String.eqb (curr st) previous)
          then
            let p := if String.eqb previousRef EmptyString then previous else previousRef in
            err2 <- checkout p ;;
            ret (match err with
                 | None => err2
                 | Some _ => err
                 end)
          else ret err) ;;
  if stashed st
  then
    err2 <- restore ;;
    ret (match err with
         | None => err2
         | Some _ => err
         end)
  else ret err.

Definition runPrePush (config : Config) (stdin : Reader) : M (option error) :=
  previous <- ask HEAD ;;
  previousRef <- ask Ref ;;
  let st := {| curr := previous; stashed := false; triedToStash := false |} in
  r <- prePushLoop config (readLines stdin) (readErr stdin) st ;;
  prePushDeferred previous previousRef (fst r) (snd r).

(** What the goroutines of [runChecks] have to send on [errs], one queue
    per enabled check. *)
Definition toSend (config : Config) (chg : option change) (modes : list Mode) (r : R)
  : list (list error) :=
  map (fun c => sends (snd (EnabledChecks config modes)) c
                  (Run c chg r, Sub (took c chg r)))
      (fst (EnabledChecks config modes)).

(** The enabled checks in the order in which their goroutines call
    [Run]. *)
Definition startedChecks (config : Config) (modes : list Mode) (r : R) : list Check :=
  rangeKeys (List.length (fst (EnabledChecks config modes))) (startOrder r)
    (fst (EnabledChecks config modes)).

(** ** Reading the trace *)

(** A computation that only adds to the trace. *)
Definition grows {A : Type} (m : M A) : Prop :=
  forall w : World, exists tl : list Event, trace (snd (m w)) = trace w ++ tl.

Definition isStash (e : Event) : bool :=
  match e with
  | EvStash _ _ => true
  | _ => false
  end.

(** How many times [Stash] was called. *)
Definition stashes (tr : list Event) : nat := List.length (filter isStash tr).

(** The variables as the turn of the loop left them. *)
Definition localsOf (c : control) : locals :=
  match c with
  | Continue st => st
  | Return _ st => st
  end.

(** The calls to [Stash] the loop may still make. *)
Definition pending (st : locals) : nat := if triedToStash st then 0 else 1.

End Hooks.

Notation "x <- m ;; k" := (bind m (fun x => k))
  (at level 100, m at next level, right associativity).

(** ** A repository to run the hooks on

    One branch, [master]; a working tree that may hold uncommitted edits;
    a stash that holds them while they are put aside. *)

Module Mock.

Record Tree : Type := {
  head : Commit;          (* the commit checked out *)
  ref : string;           (* the branch checked out, empty when detached *)
  master : Commit;        (* where the branch master is *)
  dirty : bool;           (* uncommitted edits in the working tree *)
  shelf : bool;           (* edits held by the stash *)
  stashFails : bool;      (* git stash fails *)
  order : list nat        (* the choices of the scheduler *)
}.

(** A change holds the two commits it was computed between. *)
Definition Diff : Type := (Commit * Commit)%type.

Definition doStash (t : Tree) : (bool * option error) * Tree :=
  if stashFails t
  then ((false, Some (ErrOther "git stash failed")), t)
  else
    if dirty t
    then ((true, None),
          {| head := head t; ref := ref t; master := master t; dirty := false;
             shelf := true; stashFails := stashFails t; order := order t |})
    else ((false, None), t).

Definition doRestore (t : Tree) : option error * Tree :=
  (None,
   {| head := head t; ref := ref t; master := master t;
      dirty := shelf t || dirty t; shelf := false;
      stashFails := stashFails t; order := order t |}).

Definition doCheckout (p : string) (t : Tree) : option error * Tree :=
  if String.eqb p "master"
  then (None,
        {| head := master t; ref := "master"; master := master t; dirty := dirty t;
           shelf := shelf t; stashFails := stashFails t; order := order t |})
  else (None,
        {| head := p; ref := EmptyString; master := master t; dirty := dirty t;
           shelf := shelf t; stashFails := stashFails t; order := order t |}).

Definition doBetween (from to : Commit) (ignore : list string) (t : Tree)
  : (option Diff * option error) * Tree :=
  ((Some (from, to), None), t).

#[export] Instance repo : Repo Tree Diff := {|
  HEAD := head;
  Ref := ref;
  Stash := doStash;
  Checkout := doCheckout;
  Between := doBetween;
  Restore := doRestore
|}.

#[export] Instance runtime : Runtime Tree := {|
  schedule := order;
  sinceStart := fun _ => (3 * Second)%Z;
  startOrder := fun _ => []
|}.

(** The same with the goroutines run in another order. *)
Definition shuffled (choices : list nat) : Runtime Tree := {|
  schedule := order;
  sinceStart := fun _ => (3 * Second)%Z;
  startOrder := fun _ => choices
|}.

(** A repository whose checkouts fail, or whose diffs fail. *)
Definition failing (checkouts diffs : bool) : Repo Tree Diff := {|
  HEAD := head;
  Ref := ref;
  Stash := doStash;
  Checkout := fun p t =>
    if checkouts then (Some (ErrOther "git checkout failed"), t) else doCheckout p t;
  Between := fun from to ignore t =>
    if diffs then ((None, Some (ErrOther "git diff failed")), t)
    else doBetween from to ignore t;
  Restore := doRestore
|}.

(** The empty tree, as scm.GitInitialCommit. *)
Definition root : Commit := "4b825dc642cb6eb9a060e54bf8d69288fbee4904".

Definition sha1 : Commit := "1111111111111111111111111111111111111111".
Definition sha2 : Commit := "2222222222222222222222222222222222222222".
Definition sha3 : Commit := "3333333333333333333333333333333333333333".

(** scm.Current *)
Definition current : Commit := EmptyString.

(** A tree whose branch master is at [sha2]. *)
Definition treeAt (head : Commit) (ref : string) (dirty shelf : bool)
  (sched : list nat) (stashFails : bool) : Tree :=
  {| head := head; ref := ref; master := sha2; dirty := dirty;
     shelf := shelf; stashFails := stashFails; order := sched |}.

(** On master at [sha2], with uncommitted edits. *)
Definition tree (sched : list nat) (stashFails : bool) : Tree :=
  treeAt sha2 "master" true false sched stashFails.

Definition world (sched : list nat) (stashFails : bool) : @World Tree Diff :=
  {| env := tree sched stashFails; trace := [] |}.

(** The variables of [runPrePush] when the loop starts in [world]. *)
Definition start : locals :=
  {| curr := sha2; stashed := false; triedToStash := false |}.

(** A check that returns [err] after [seconds]. *)
Definition check (name : string) (err : option error) (seconds : Z) : @Check Tree Diff :=
  {| GetName := name; Run := fun _ _ => err; took := fun _ _ => (seconds * Second)%Z |}.

Definition passes : @Check Tree Diff := check "passes" None 1.
Definition failsLate : @Check Tree Diff := check "failsLate" (Some (ErrOther "exit status 1")) 11.
Definition late : @Check Tree Diff := check "late" None 12.

(** Every mode enables [enabled], with ten seconds allowed. *)
Definition config (enabled : list (@Check Tree Diff)) : @Config Tree Diff :=
  {| EnabledChecks := fun _ => (enabled, 10%Z); IgnorePatterns := [] |}.

(** A line of the pre-push protocol for the ref refs/heads/a. *)
Definition refLine (localSha remoteSha : Commit) : string :=
  ("refs/heads/a " ++ localSha ++ " refs/heads/a " ++ remoteSha
   ++ String newline EmptyString)%string.

Definition stdin (content : string) : Reader :=
  {| unread := content; readErr := io_EOF |}.

(** The push of a new branch at [sha1]. *)
Definition newBranch : string := refLine sha1 gitNilCommit.

(** The deletion of a ref. *)
Definition deletion : string := refLine gitNilCommit sha1.

(** [world] after its edits were stashed. *)
Definition stashedTree : Tree := treeAt sha2 "master" false true [] false.

(** [world] after the stash and the checkout of [sha1]. *)
Definition moved : @World Tree Diff :=
  {| env := treeAt sha1 EmptyString false true [] false;
     trace := [EvStash true None; EvCheckout sha1 None] |}.

(** A check that fails within the time allowed. *)
Definition fails : @Check Tree Diff := check "fails" (Some (ErrOther "exit status 1")) 1.

(** [world] after the stash and the checks of [runPreCommit], with the
    checks [fails] and [passes]. *)
Definition checked : @World Tree Diff :=
  {| env := stashedTree;
     trace := [EvStash true None;
               EvBetween current sha2 [] (Some (current, sha2)) None;
               EvRun "fails" (Some (current, sha2));
               EvRun "passes" (Some (current, sha2));
               EvPrint (ErrOther "exit status 1")] |}.

(** A line whose two shas are all zeros, and a line that is no line of the
    protocol before the push of a new branch. *)
Definition bothZero : string := refLine gitNilCommit gitNilCommit.

Definition garbled : string :=
  ("refs/heads/a" ++ String newline newBranch)%string.

End Mock.

(** * The rest of package main *)

(** ** strings, strconv and sort *)

(** [strings.Split(s, sep)] for a separator of one byte: the fields between
    the separators, one more than there are separators. *)
Fixpoint splitFrom (sep : ascii) (seen : string) (s : string) : list string :=
  match s with
  | EmptyString => [seen]
  | String c s' =>
      if Ascii.eqb c sep
      then seen :: splitFrom sep EmptyString s'
      else splitFrom sep (seen ++ String c EmptyString)%string s'
  end.

Definition Split (s : string) (sep : ascii) : list string :=
  splitFrom sep EmptyString s.

(** [strings.Join(a, sep)] *)
Fixpoint Join (a : list string) (sep : string) : string :=
  match a with
  | [] => EmptyString
  | x :: rest =>
      match rest with
      | [] => x
      | _ :: _ => (x ++ sep ++ Join rest sep)%string
      end
  end.

(** The value of a decimal digit. *)
Definition digitValue (d : ascii) : option Z :=
  let n := nat_of_ascii d in
  if ((48 <=? n) && (n <=? 57))%nat then Some (Z.of_nat n - 48)%Z else None.

(** The digits of [s] read in base 10 after the value [n]; nothing when a
    byte is not a digit. *)
Fixpoint parseDigits (s : string) (n : Z) : option Z :=
  match s with
  | EmptyString => Some n
  | String d s' =>
      match digitValue d with
      | None => None
      | Some v => parseDigits s' (n * 10 + v)%Z
      end
  end.

(** [strconv.ParseInt(s, 10, bitSize)]: an optional sign, then one digit or
    more, for a value that fits in [bitSize] bits; [None] stands for its
    errors, which the callers do not tell apart. *)
Definition ParseInt (s : string) (bitSize : Z) : option Z :=
  match s with
  | EmptyString => None
  | String c s' =>
      let neg := Ascii.eqb c "-" in
      let digits := if Ascii.eqb c "+" || neg then s' else s in
      match digits with
      | EmptyString => None
      | String _ _ =>
          match parseDigits digits 0 with
          | None => None
          | Some un =>
              let cutoff := (2 ^ (bitSize - 1))%Z in
              if negb neg && (cutoff <=? un)%Z then None
              else if neg && (cutoff <? un)%Z then None
              else Some (if neg then - un else un)%Z
          end
      end
  end.

(** The decimal notation of an integer, as the standard library of Rocq
    writes it: a minus sign for a negative number, then the digits. *)
Definition decimal (z : Z) : string :=
  DecimalString.NilEmpty.string_of_int (Z.to_int z).

(** [sort.Strings]: the strings in increasing order of their bytes.  The
    order is total, so every sorting algorithm gives the same slice. *)
Fixpoint insertString (x : string) (l : list string) : list string :=
  match l with
  | [] => [x]
  | y :: l' => if String.leb x y then x :: l else y :: insertString x l'
  end.

Fixpoint sortStrings (l : list string) : list string :=
  match l with
  | [] => []
  | x :: l' => insertString x (sortStrings l')
  end.

(** ** A buffered channel of any type, and the keys of a map *)

(** [pick] and [wait] for a channel of any type. *)
Fixpoint pickFrom {A : Type} (k : nat) (gs : list (list A))
  : option (A * list (list A)) :=
  match gs with
  | [] => None
  | [] :: gs' =>
      match pickFrom k gs' with
      | Some (e, gs'') => Some (e, [] :: gs'')
      | None => None
      end
  | (e :: q) :: gs' =>
      match k with
      | 0 => Some (e, q :: gs')
      | S k' =>
          match pickFrom k' gs' with
          | Some (e', gs'') => Some (e', (e :: q) :: gs'')
          | None => Some (e, q :: gs')
          end
      end
  end.

Fixpoint waitFor {A : Type} (n : nat) (sched : list nat) (capacity : nat)
  (gs : list (list A)) (buf : list A) : outcome (list A) :=
  match n with
  | 0 => Done buf
  | S n' =>
      match pickFrom (hd 0 sched) gs with
      | None => Done buf
      | Some (e, gs') =>
          if List.length buf <? capacity
          then waitFor n' (tl sched) capacity gs' (buf ++ [e])
          else Hung
      end
  end.

(** m[url] = true, for a map held as the list of its keys. *)
Definition setKey (keys : list string) (url : string) : list string :=
  if existsb (String.eqb url) keys then keys else keys ++ [url].

(** ** parseVersion *)

(** const version *)
Definition version : string := "0.4.4".

(** The loop of [parseVersion] over the fields still to read. *)
Fixpoint parseVersionFields (fields : list string) (out : list Z) : option (list Z) :=
  match fields with
  | [] => Some out
  | i :: fields' =>
      match ParseInt i 32 with
      | None => None
      | Some v => parseVersionFields fields' (out ++ [v])
      end
  end.

(** func parseVersion: converts a "1.2.3" string into []int{1,2,3}. *)
Definition parseVersion (v : string) : option (list Z) :=
  parseVersionFields (Split v ".") [].

(** var parsedVersion, as [init] sets it; [init] panics on an error. *)
Definition parsedVersion : list Z :=
  match parseVersion version with
  | Some out => out
  | None => []
  end.

(** ** loadConfigFile and loadConfig *)

(** for i, v := range configVersion { ... }, from index [i] on: [true]
    when the loop ends or breaks, [false] when it returns nil because the
    config requires a newer version. *)
Fixpoint versionLoop (parsed : list Z) (i : nat) (configVersion : list Z) : bool :=
  match configVersion with
  | [] => true
  | v :: rest =>
      if (List.length parsed <=? i)%nat
      then
        if (v =? 0)%Z
        then (* 3.0 == 3.0.0 *) versionLoop parsed (S i) rest
        else false
      else
        if (v <? nth i parsed 0%Z)%Z then true
        else if (nth i parsed 0%Z <? v)%Z then false
        else versionLoop parsed (S i) rest
  end.

Section Loading.

(** What a [*checks.Config] read from a file holds, and its field
    MinVersion. *)
Variable C : Type.
Variable MinVersion : C -> string.

(** ioutil.ReadFile on the disk as it is, yaml.Unmarshal into an empty
    config, and checks.New. *)
Variable ReadFile : string -> option string.
Variable Unmarshal : string -> option C.
Variable New : string -> C.

(** filepath.IsAbs and filepath.Join, repo.ScmDir() and repo.Root(), the
    HomeDir of user.Current() and runtime.GOOS; [None] is an error. *)
Variable IsAbs : string -> bool.
Variable filepathJoin : list string -> string.
Variable ScmDir : option string.
Variable Root : string.
Variable HomeDir : option string.
Variable GOOS : string.

(** func loadConfigFile, for a tool whose version is [parsed]. *)
Definition loadConfigFileFor (parsed : list Z) (pathname : string) : option C :=
  match ReadFile pathname with
  | None => None
  | Some content =>
      match Unmarshal content with
      | None => None
      | Some config =>
          let configVersion :=
            match parseVersion (MinVersion config) with
            | Some v => v
            | None => []
            end in
          if versionLoop parsed 0 configVersion then Some config else None
      end
  end.

Definition loadConfigFile (pathname : string) : option C :=
  loadConfigFileFor parsedVersion pathname.

(** func loadConfig *)
Definition loadConfig (path : string) : string * C :=
  let default := ("<N/A>", New version) in
  if IsAbs path
  then
    match loadConfigFile path with
    | Some config => (path, config)
    | None => default
    end
  else
    let inScm :=
      match ScmDir with
      | Some scmDir =>
          let file := filepathJoin [scmDir; path] in
          match loadConfigFile file with
          | Some config => Some (file, config)
          | None => None
          end
      | None => None
      end in
    match inScm with
    | Some found => found
    | None =>
        let file := filepathJoin [Root; path] in
        match loadConfigFile file with
        | Some config => (file, config)
        | None =>
            match HomeDir with
            | Some home =>
                if negb (String.eqb home EmptyString)
                then
                  let file :=
                    if String.eqb GOOS "windows"
                    then filepathJoin [home; path]
                    else filepathJoin [home; ".config"; path] in
                  match loadConfigFile file with
                  | Some config => (file, config)
                  | None => default
                  end
                else default
            | None => default
            end
        end
    end.

End Loading.

(** ** processModes, cmdInstallPrereq, cmdRun and cmdRunHook *)

(** The errors of the commands: those of the hooks, the repository and the
    checks, and those package main makes itself. *)
Inductive cmdError : Type :=
| Core (e : error)
| ErrInvalidMode (p : string)            (* "invalid mode ..." with p and helpModes *)
| ErrPrereqMissing (urls : list string)  (* "-n is specified but prerequites are missing:" and the urls *)
| ErrInstallOutput (out : string)        (* "prerequisites installation failed: %s", out *)
| ErrInstallFailed (err : error)         (* "prerequisites installation failed: %s", err *)
| ErrUnsupportedHook.                    (* "unsupported hook type for run-hook" *)

Definition core (err : option error) : option cmdError := option_map Core err.

(** [definitions.CheckPrerequisite]: its URL and what IsPresent() finds. *)
Record CheckPrerequisite (R : Type) : Type := {
  URL : string;
  IsPresent : R -> bool
}.
Arguments URL {R} _.
Arguments IsPresent {R} _ _.

(** What the commands use beside [Repo] and [Runtime]: GetPrerequisites()
    of a check, repo.Upstream(), internal.Capture("", nil, args...) with its
    output and error, and the order in which a map is ranged over. *)
Class Tools (R change : Type) : Type := {
  GetPrerequisites : @Check R change -> list (CheckPrerequisite R);
  Upstream : R -> Commit * option error;
  Capture : list string -> R -> (string * option error) * R;
  rangeOrder : R -> list nat
}.

Section Commands.

Context {R change : Type} {repo : Repo R change} {runtime : Runtime R}
        {tools : Tools R change}.

Variable GitInitialCommit : Commit.
Variable Current : Commit.

(** string(checks.PreCommit) and the like. *)
Variable modeString : Mode -> string.

(** The switch of [processModes] on one field. *)
Definition modesOf (p : string) : option (list Mode) :=
  if String.eqb p "all" then Some [ContinuousIntegration; Lint]
  else if String.eqb p (modeString PreCommit) || String.eqb p "fast" || String.eqb p "pc"
  then Some [PreCommit]
  else if String.eqb p (modeString PrePush) || String.eqb p "slow" || String.eqb p "pp"
  then Some [PrePush]
  else if String.eqb p (modeString ContinuousIntegration) || String.eqb p "full"
          || String.eqb p "ci"
  then Some [ContinuousIntegration]
  else if String.eqb p (modeString Lint) then Some [Lint]
  else None.

(** The loop of [processModes] over the fields still to read. *)
Fixpoint processFields (fields : list string) (modes : list Mode)
  : list Mode + cmdError :=
  match fields with
  | [] => inl modes
  | p :: fields' =>
      if negb (String.length p =? 0)
      then
        match modesOf p with
        | Some more => processFields fields' (modes ++ more)
        | None => inr (ErrInvalidMode p)
        end
      else processFields fields' modes
  end.

(** func processModes; the nil slice is the empty list. *)
Definition processModes (modeFlag : string) : list Mode + cmdError :=
  if String.length modeFlag =? 0
  then inl []
  else processFields (Split modeFlag ",") [].

(** What the goroutines of [cmdInstallPrereq] have to send on [c], one
    goroutine per prerequisite of each enabled check. *)
Definition missing (enabledChecks : list (@Check R change)) (r : R) : list (list string) :=
  flat_map
    (fun check =>
       map (fun prereq => if IsPresent prereq r then [] else [URL prereq])
           (GetPrerequisites check))
    enabledChecks.

(** func cmdInstallPrereq *)
Definition cmdInstallPrereq (config : @Config R change) (modes : list Mode)
  (noUpdate : bool) : @M R change (option cmdError) :=
  let enabledChecks := fst (EnabledChecks config modes) in
  gs <- ask (missing enabledChecks) ;;
  sched <- ask schedule ;;
  match waitFor (List.length (List.concat gs)) sched (List.length enabledChecks) gs [] with
  | Hung => fun w => (Hung, w)
  | Done received =>
      (* Use a map to remove duplicates. *)
      let m := fold_left setKey received [] in
      order <- ask rangeOrder ;;
      let urls := sortStrings (rangeKeys (List.length m) order m) in
      if negb (List.length urls =? 0)
      then
        if noUpdate
        then ret (Some (ErrPrereqMissing urls))
        else
          fun w =>
            let '((out, err), r) := Capture ("go" :: "get" :: urls) (env w) in
            (Done (if negb (String.length out =? 0)
                   then Some (ErrInstallOutput out)
                   else
                     match err with
                     | Some e => Some (ErrInstallFailed e)
                     | None => None
                     end),
             {| env := r; trace := trace w |})
      else ret None
  end.

(** func cmdRun *)
Definition cmdRun (config : @Config R change) (modes : list Mode) (allFiles : bool)
  : @M R change (option cmdError) :=
  up <- (if negb allFiles then ask Upstream else ret (GitInitialCommit, None)) ;;
  let (old, err) := up in
  match err with
  | Some _ => ret (core err)
  | None =>
      b <- between Current old (IgnorePatterns config) ;;
      let (chg, err) := b in
      match err with
      | Some _ => ret (core err)
      | None =>
          err <- runChecks config chg modes ;;
          ret (core err)
      end
  end.

(** func cmdRunHook *)
Definition cmdRunHook (config : @Config R change) (mode : string) (noUpdate : bool)
  (stdin : Reader) : @M R change (option cmdError) :=
  if String.eqb mode (modeString PreCommit)
  then err <- runPreCommit Current config ;; ret (core err)
  else if String.eqb mode (modeString PrePush)
  then err <- runPrePush GitInitialCommit config stdin ;; ret (core err)
  else if String.eqb mode (modeString ContinuousIntegration)
  then
    (* Always runs all tests on CI. *)
    b <- between Current GitInitialCommit (IgnorePatterns config) ;;
    let (chg, err) := b in
    match err with
    | Some _ => ret (core err)
    | None =>
        let mode := [ContinuousIntegration] in
        err <- cmdInstallPrereq config mode noUpdate ;;
        match err with
        | Some _ => ret err
        | None =>
            err <- runChecks config chg mode ;;
            ret (core err)
        end
    end
  else ret (Some ErrUnsupportedHook).

End Commands.

(** The calls that change the working tree. *)
Definition isMutation {change : Type} (e : @Event change) : bool :=
  match e with
  | EvStash _ _ => true
  | EvCheckout _ _ => true
  | EvRestore _ => true
  | _ => false
  end.

Definition mutations {change : Type} (tr : list (@Event change)) : list (@Event change) :=
  filter isMutation tr.

(** The urls of the prerequisites that are missing, each once, in
    increasing order. *)
Definition missingUrls {R change : Type} {tools : Tools R change}
  (enabledChecks : list (@Check R change)) (r : R) : list string :=
  sortStrings (nodup string_dec (List.concat (missing enabledChecks r))).

Definition isRestore {change : Type} (e : @Event change) : bool :=
  match e with
  | EvRestore _ => true
  | _ => false
  end.

(** The calls to [Restore]. *)
Definition restores {change : Type} (tr : list (@Event change)) : nat :=
  List.length (filter isRestore tr).

Definition isHeld {change : Type} (e : @Event change) : bool :=
  match e with
  | EvStash true _ => true
  | _ => false
  end.

(** The calls to [Stash] that reported that something was stashed. *)
Definition held {change : Type} (tr : list (@Event change)) : nat :=
  List.length (filter isHeld tr).

Definition b2n (b : bool) : nat := if b then 1 else 0.

(** A character of a ref name: any but a space and a newline. *)
Definition word (c : ascii) : bool := dot c && negb (Ascii.eqb " " c).

(** * cmd/covg *)

Module Covg.

(** [strings.SplitAfter(s, sep)] for a separator of one byte. *)
Fixpoint splitAfterFrom (seen : string) (s : string) (sep : ascii) : list string :=
  match s with
  | EmptyString => [seen]
  | String c s' =>
      if Ascii.eqb c sep
      then (seen ++ String c EmptyString)%string :: splitAfterFrom EmptyString s' sep
      else splitAfterFrom (seen ++ String c EmptyString)%string s' sep
  end.

Definition SplitAfter (s : string) (sep : ascii) : list string :=
  splitAfterFrom EmptyString s sep.

(** The text made of [lines], each followed by a newline, and of [tail]. *)
Definition unlines (lines : list string) (tail : string) : string :=
  fold_right (fun l rest => (l ++ String newline rest)%string) tail lines.

(** var silentError, and the errors of the calls [mainImpl] makes. *)
Inductive covgError : Type :=
| silentError
| External (msg : string).

(** How a call ends: it returns, or it panics. *)
Inductive ending (A : Type) : Type :=
| Returned (a : A)
| Panicked.
Arguments Returned {A} a.
Arguments Panicked {A}.

(** func pkgToDir; [p[2:]] panics on a string shorter than two bytes. *)
Definition pkgToDir (p : string) : ending string :=
  if String.eqb p "."
  then Returned p
  else
    if String.length p <? 2
    then Panicked
    else Returned (substring 2 (String.length p - 2) p).

Section Coverage.

Variables float64 CoverageProfile Change Repo : Type.

(** definitions.CoverageSettings and checks.Coverage, as far as [mainImpl]
    fills them. *)
Record CoverageSettings : Type := {
  MinCoverage : float64;
  MaxCoverage : float64
}.

Record Coverage : Type := {
  Global : CoverageSettings;
  PerDirDefault : CoverageSettings
}.

(** checks.ProcessProfile, with the text of its error. *)
Variable ProcessProfile : CoverageProfile -> CoverageSettings -> string * option string.
(** profile.Subset(d) and len(subset) *)
Variable Subset : CoverageProfile -> string -> CoverageProfile.
Variable len : CoverageProfile -> nat.
(** os.Getwd() *)
Variable Getwd : string * option string.
(** scm.GetRepo(cwd, "") *)
Variable GetRepo : string -> string -> Repo * option string.
(** repo.Between(scm.Current, scm.GitInitialCommit, nil); the change is nil
    when there is none. *)
Variable Between : Repo -> Commit -> Commit -> list string -> option Change * option string.
(** change.All().TestPackages() *)
Variable TestPackages : Change -> list string.
(** c.RunProfile(change) *)
Variable RunProfile : Coverage -> Change -> CoverageProfile * option string.
Variable GitInitialCommit : Commit.
Variable Current : Commit.

(** One turn of the loop of [printProfile] over the lines of [out]. *)
Definition indentLine (indent : string) (tmp line : string) : string :=
  if 1 <? String.length line
  then (tmp ++ indent ++ line)%string
  else (tmp ++ line)%string.

(** func printProfile: what it writes to stdout, and its result. *)
Definition printProfile (settings : CoverageSettings) (profile : CoverageProfile)
  (indent : string) : list string * bool :=
  let (out, err) := ProcessProfile profile settings in
  let out :=
    if negb (String.eqb indent EmptyString)
    then fold_left (indentLine indent) (SplitAfter out newline) EmptyString
    else out in
  match err with
  | Some e => ([out; (indent ++ e)%string], false)
  | None => ([out], true)
  end.

(** The loop of [mainImpl] over the packages, with the variable [err] and
    what was written to stdout so far. *)
Fixpoint eachPackage (c : Coverage) (profile : CoverageProfile) (pkgs : list string)
  (err : option covgError) (stdout : list string)
  : ending (option covgError) * list string :=
  match pkgs with
  | [] => (Returned err, stdout)
  | pkg :: pkgs' =>
      match pkgToDir pkg with
      | Panicked => (Panicked, stdout)
      | Returned d =>
          let subset := Subset profile d in
          if negb (len subset =? 0)
          then
            let (printed, ok) := printProfile (Global c) subset "  " in
            eachPackage c profile pkgs'
              (if negb ok then Some silentError else err)
              (stdout ++ (d ++ String newline EmptyString)%string :: printed)
          else eachPackage c profile pkgs' err stdout
      end
  end.

(** func mainImpl, from the values of the flags. *)
Definition mainImpl (minFlag maxFlag : float64) (globalFlag verboseFlag : bool)
  : ending (option covgError) * list string :=
  let (cwd, err) := Getwd in
  match err with
  | Some e => (Returned (Some (External e)), [])
  | None =>
      let (repo, err) := GetRepo cwd EmptyString in
      match err with
      | Some e => (Returned (Some (External e)), [])
      | None =>
          let c := {| Global := {| MinCoverage := minFlag; MaxCoverage := maxFlag |};
                      PerDirDefault := {| MinCoverage := minFlag; MaxCoverage := maxFlag |} |} in
          let (change, err) := Between repo Current GitInitialCommit [] in
          match err with
          | Some e => (Returned (Some (External e)), [])
          | None =>
              match change with
              | None => (* change.All() on a nil Change *) (Panicked, [])
              | Some change =>
                  let (profile, err) := RunProfile c change in
                  match err with
                  | Some e => (Returned (Some (External e)), [])
                  | None =>
                      if globalFlag
                      then
                        let (printed, ok) := printProfile (Global c) profile EmptyString in
                        if negb ok
                        then (Returned (Some silentError), printed)
                        else (Returned None, printed)
                      else
                        match eachPackage c profile (TestPackages change) None [] with
                        | (Returned _, stdout) => (Returned None, stdout)
                        | (Panicked, stdout) => (Panicked, stdout)
                        end
                  end
              end
          end
      end
  end.

End Coverage.

End Covg.

(** * The commands on the mock repository *)

Module MockCommands.

Import Mock.

(** string(checks.PreCommit) and the like. *)
Definition modeString (m : Mode) : string :=
  match m with
  | PreCommit => "pre-commit"
  | PrePush => "pre-push"
  | ContinuousIntegration => "continuous-integration"
  | Lint => "lint"
  end.

(** Two tools that are not installed. *)
Definition golint : CheckPrerequisite Tree :=
  {| URL := "github.com/golang/lint/golint"; IsPresent := fun _ => false |}.

Definition errcheck : CheckPrerequisite Tree :=
  {| URL := "github.com/kisielk/errcheck"; IsPresent := fun _ => false |}.

(** The check named lint needs both tools, the check named errcheck one. *)
Definition prerequisites (c : @Check Tree Diff) : list (CheckPrerequisite Tree) :=
  if String.eqb (GetName c) "lint" then [errcheck; golint]
  else if String.eqb (GetName c) "errcheck" then [errcheck]
  else [].

(** go get prints nothing and succeeds. *)
#[export] Instance tools : Tools Tree Diff := {|
  GetPrerequisites := prerequisites;
  Upstream := fun t => (master t, None);
  Capture := fun _ t => ((EmptyString, None), t);
  rangeOrder := order
|}.

Definition lint : @Check Tree Diff := check "lint" None 1.

Definition urls : list string :=
  ["github.com/golang/lint/golint"; "github.com/kisielk/errcheck"].

(** A disk with one file; a config is held as its minimum version. *)
Definition disk (content : string) (pathname : string) : option string :=
  if String.eqb pathname "/repo/pre-commit-go.yml" then Some content else None.

Definition isAbs (path : string) : bool :=
  match path with
  | String "/" _ => true
  | _ => false
  end.

Definition load (content : string) (path : string) : string * string :=
  loadConfig string (fun c => c) (disk content) Some (fun v => v) isAbs
    (fun l => Join l "/") None "/repo" None "linux" path.

(** Two lines for two refs, and half a line. *)
Definition twoLines : string :=
  (refLine sha1 gitNilCommit ++ refLine sha3 sha1)%string.

Definition halfLine : string := "refs/heads/b 1111".

(** covg: a profile is the text of its report and its error; the package
    ./a has a profile, the package ./b has none. *)
Definition report : Type := (string * option string)%type.

Definition subset (profile : report) (d : string) : report :=
  if String.eqb d "a" then profile else (EmptyString, None).

Definition size (profile : report) : nat := String.length (fst profile).

Definition covg (profile : report) (globalFlag : bool)
  : Covg.ending (option Covg.covgError) * list string :=
  Covg.mainImpl Z report Diff Tree (fun p _ => p) subset size
    ("/repo", None) (fun _ _ => (tree [] false, None))
    (fun t from to _ => (Some (from, to), None))
    (fun _ => ["./a"; "./b"]) (fun _ _ => (profile, None))
    root current 0%Z 100%Z globalFlag false.

Definition refused : report :=
  (Covg.unlines ["main.go:12 f 40.0%"; ""] "x", Some "coverage 40.0% < 50.0%").

End MockCommands.

(** * Properties *)

(** ** regexp *)

Lemma matchAtoms_groups :
  forall (atoms : list atom) (s : string) (gs : list string),
    matchAtoms atoms s = Some gs -> List.length gs = groups atoms.
Proof.
  induction atoms as [| a rest IH]; intros s gs.
  - destruct s; cbn; intros E; inversion E; reflexivity.
  - destruct a as [c | class | n class]; cbn [matchAtoms].
    + destruct s as [| d s']; [discriminate |].
      destruct (Ascii.eqb c d); [| discriminate].
      intros E. apply IH in E. exact E.
    + generalize EmptyString as seen. revert gs.
      induction s as [| d s' IHs]; intros gs seen; cbn [lazyPlus]; [discriminate |].
      destruct (class d); [| discriminate].
      destruct (matchAtoms rest s') as [gs' |] eqn:E.
      * intros E'. inversion E'; subst. apply IH in E.
        unfold groups in *. cbn. rewrite E. reflexivity.
      * apply IHs.
    + destruct (take n s) as [[g s'] |]; [| discriminate].
      destruct (all class g); [| discriminate].
      destruct (matchAtoms rest s') as [gs' |] eqn:E; [| discriminate].
      intros E'. inversion E'; subst. apply IH in E.
      unfold groups in *. cbn. rewrite E. reflexivity.
Qed.

(** A match of [rePrePush] has the whole text and four groups. *)
Lemma FindStringSubmatch_rePrePush :
  forall s : string,
    FindStringSubmatch rePrePush s = []
    \/ List.length (FindStringSubmatch rePrePush s) = 5.
Proof.
  intros s. unfold FindStringSubmatch.
  destruct (matchAtoms rePrePush s) as [gs |] eqn:E; [right | left; reflexivity].
  apply matchAtoms_groups in E. cbn [List.length]. rewrite E. reflexivity.
Qed.

Lemma nth_FindStringSubmatch_rePrePush :
  forall (s : string) (i : nat),
    nth i (FindStringSubmatch rePrePush s) EmptyString <> EmptyString ->
    List.length (FindStringSubmatch rePrePush s) = 5.
Proof.
  intros s i Hn.
  destruct (FindStringSubmatch_rePrePush s) as [E | E]; [| exact E].
  rewrite E in Hn. destruct i; cbn in Hn; congruence.
Qed.

Lemma append_cons_assoc :
  forall (a : string) (d : ascii) (b : string),
    ((a ++ String d EmptyString) ++ b)%string = (a ++ String d b)%string.
Proof.
  induction a as [| c a IH]; intros d b; cbn; [reflexivity |].
  rewrite IH. reflexivity.
Qed.

Lemma take_spec :
  forall (n : nat) (s g s' : string),
    take n s = Some (g, s') -> s = (g ++ s')%string /\ String.length g = n.
Proof.
  induction n as [| n IH]; intros s g s'; cbn [take].
  - intros E. inversion E; subst. split; reflexivity.
  - destruct s as [| c s0]; [discriminate |].
    destruct (take n s0) as [[p r] |] eqn:E; [| discriminate].
    intros E'. inversion E'; subst. apply IH in E. destruct E as [-> <-].
    split; reflexivity.
Qed.

(** What a lazy group holds at the end: [seen] and then one or more
    characters of its class, before a text the rest of the pattern
    matches. *)
Lemma lazyPlus_spec :
  forall (class : ascii -> bool) (k : string -> option (list string))
         (s seen : string) (gs : list string),
    lazyPlus class k seen s = Some gs ->
    exists (g s' : string) (gs' : list string),
      gs = (seen ++ g)%string :: gs'
      /\ s = (g ++ s')%string
      /\ g <> EmptyString
      /\ all class g = true
      /\ k s' = Some gs'.
Proof.
  intros class k. induction s as [| d s IH]; intros seen gs; cbn [lazyPlus];
    [discriminate |].
  destruct (class d) eqn:Hd; [| discriminate].
  destruct (k s) as [gs' |] eqn:Ek.
  - intros E. inversion E; subst.
    exists (String d EmptyString), s, gs'. cbn. rewrite Hd.
    repeat split; [discriminate | exact Ek].
  - intros E. apply IH in E.
    destruct E as [g [s' [gs' [-> [-> [Hg [Hall Ek']]]]]]].
    exists (String d g), s', gs'. cbn. rewrite Hd, Hall, append_cons_assoc.
    repeat split; [discriminate | exact Ek'].
Qed.

(** X1.  A match of [rePrePush] cuts the text into four fields between
    single spaces; the second and the fourth are forty characters of
    [0-9a-f]. *)
Lemma rePrePush_fields :
  forall (s : string) (matches : list string),
    FindStringSubmatch rePrePush s = matches ->
    matches <> [] ->
    exists g1 g2 g3 g4 : string,
      matches = [s; g1; g2; g3; g4]
      /\ s = (g1 ++ " " ++ g2 ++ " " ++ g3 ++ " " ++ g4)%string
      /\ g1 <> EmptyString /\ all dot g1 = true
      /\ String.length g2 = 40 /\ all hex g2 = true
      /\ g3 <> EmptyString /\ all dot g3 = true
      /\ String.length g4 = 40 /\ all hex g4 = true.
Proof.
  intros s matches <- Hne. unfold FindStringSubmatch in *.
  destruct (matchAtoms rePrePush s) as [gs |] eqn:E; [clear Hne | congruence].
  unfold rePrePush in E. cbn [matchAtoms] in E.
  apply lazyPlus_spec in E.
  destruct E as [g1 [s1 [gs1 [-> [-> [Hg1 [Hd1 E]]]]]]].
  destruct s1 as [| c1 s1]; [discriminate |].
  destruct (Ascii.eqb_spec " " c1) as [<- |]; [| discriminate].
  destruct (take 40 s1) as [[g2 s2] |] eqn:T2; [| discriminate].
  apply take_spec in T2. destruct T2 as [-> L2].
  destruct (all hex g2) eqn:H2; [| discriminate].
  destruct s2 as [| c2 s2]; [discriminate |].
  destruct (Ascii.eqb_spec " " c2) as [<- |]; [| discriminate].
  destruct (lazyPlus dot _ EmptyString s2) as [gs3 |] eqn:E3; [| discriminate].
  apply lazyPlus_spec in E3.
  destruct E3 as [g3 [s3 [gs3' [-> [-> [Hg3 [Hd3 E3]]]]]]].
  destruct s3 as [| c3 s3]; [discriminate |].
  destruct (Ascii.eqb_spec " " c3) as [<- |]; [| discriminate].
  destruct (take 40 s3) as [[g4 s4] |] eqn:T4; [| discriminate].
  apply take_spec in T4. destruct T4 as [-> L4].
  destruct (all hex g4) eqn:H4; [| discriminate].
  destruct s4; [| discriminate].
  cbn in E3. inversion E3; subst gs3'. cbn in E. inversion E; subst gs1.
  exists g1, g2, g3, g4. cbn [append].
  assert (Hnil : forall x : string, (x ++ EmptyString)%string = x).
  { induction x as [| c x IHx]; cbn; [reflexivity | rewrite IHx; reflexivity]. }
  rewrite Hnil. repeat split; assumption.
Qed.

(** The line of the protocol, and what [rePrePush] refuses. *)
Example rePrePush_line :
  FindStringSubmatch rePrePush
    "refs/heads/a 1111111111111111111111111111111111111111 refs/heads/b 0000000000000000000000000000000000000000"
  = ["refs/heads/a 1111111111111111111111111111111111111111 refs/heads/b 0000000000000000000000000000000000000000";
     "refs/heads/a"; "1111111111111111111111111111111111111111";
     "refs/heads/b"; "0000000000000000000000000000000000000000"].
Proof. reflexivity. Qed.

Example rePrePush_upper_case :
  FindStringSubmatch rePrePush
    "refs/heads/a 111111111111111111111111111111111111111A refs/heads/b 0000000000000000000000000000000000000000"
  = [].
Proof. reflexivity. Qed.

Example rePrePush_short_sha :
  FindStringSubmatch rePrePush
    "refs/heads/a 111111111111111111111111111111111111111 refs/heads/b 0000000000000000000000000000000000000000"
  = [].
Proof. reflexivity. Qed.

Example rePrePush_three_fields :
  FindStringSubmatch rePrePush
    "refs/heads/a 1111111111111111111111111111111111111111 0000000000000000000000000000000000000000"
  = [].
Proof. reflexivity. Qed.

(** [ReadString] cuts after each newline and leaves what follows the last
    one unread. *)
Example readLines_two :
  readLines {| unread := "ab
c
d"; readErr := io_EOF |}
  = ["ab
"; "c
"].
Proof. reflexivity. Qed.

(** ** The channel *)

Lemma pick_none :
  forall (gs : list (list error)) (k : nat),
    pick k gs = None -> List.concat gs = [].
Proof.
  induction gs as [| g gs IH]; intros k; [reflexivity |].
  destruct g as [| e q]; cbn [pick].
  - destruct (pick k gs) as [[e' gs'] |] eqn:E; [discriminate |].
    intros _. cbn. exact (IH k E).
  - destruct k as [| k']; [discriminate |].
    destruct (pick k' gs) as [[e' gs'] |]; discriminate.
Qed.

Lemma pick_some :
  forall (gs gs' : list (list error)) (k : nat) (e : error),
    pick k gs = Some (e, gs') ->
    Permutation (List.concat gs) (e :: List.concat gs').
Proof.
  induction gs as [| g gs IH]; intros gs' k e; [discriminate |].
  destruct g as [| e0 q]; cbn [pick].
  - destruct (pick k gs) as [[e1 gs1] |] eqn:E; [| discriminate].
    intros H. inversion H; subst. cbn. exact (IH _ _ _ E).
  - destruct k as [| k'].
    + intros H. inversion H; subst. reflexivity.
    + destruct (pick k' gs) as [[e1 gs1] |] eqn:E; intros H; inversion H; subst.
      * cbn [List.concat]. apply IH in E.
        change (Permutation ((e0 :: q) ++ List.concat gs) ((e :: nil) ++ (e0 :: q) ++ List.concat gs1)).
        rewrite E. 
        change (e :: List.concat gs1) with ((e :: nil) ++ List.concat gs1).
        rewrite !app_assoc. apply Permutation_app_tail. apply Permutation_app_comm.
      * reflexivity.
Qed.

(** When all the sends fit in the buffer every goroutine finishes, and the
    buffer then holds what they sent. *)
Lemma wait_fits :
  forall (n : nat) (sched : list nat) (capacity : nat)
         (gs : list (list error)) (buf : list error),
    List.length (List.concat gs) = n ->
    List.length buf + n <= capacity ->
    exists out : list error,
      wait n sched capacity gs buf = Done out
      /\ Permutation out (buf ++ List.concat gs).
Proof.
  induction n as [| n IH]; intros sched capacity gs buf Hn Hc.
  - exists buf. split; [reflexivity |].
    apply length_zero_iff_nil in Hn. rewrite Hn, app_nil_r. reflexivity.
  - cbn [wait].
    destruct (pick (hd 0 sched) gs) as [[e gs'] |] eqn:E.
    + apply pick_some in E.
      assert (Hn' : List.length (List.concat gs') = n).
      { apply Permutation_length in E. cbn in E. lia. }
      assert (Hlt : (List.length buf <? capacity) = true) by (apply Nat.ltb_lt; lia).
      rewrite Hlt.
      destruct (IH (tl sched) capacity gs' (buf ++ [e]) Hn') as [out [Ew Ep]].
      { rewrite length_app. cbn. lia. }
      exists out. split; [exact Ew |].
      rewrite Ep, <- app_assoc. apply Permutation_app_head. symmetry. exact E.
    + apply pick_none in E. rewrite E in Hn. discriminate.
Qed.

(** When they do not fit, one goroutine blocks and [wg.Wait()] never
    returns. *)
Lemma wait_overflows :
  forall (n : nat) (sched : list nat) (capacity : nat)
         (gs : list (list error)) (buf : list error),
    List.length (List.concat gs) = n ->
    List.length buf <= capacity ->
    capacity < List.length buf + n ->
    wait n sched capacity gs buf = Hung.
Proof.
  induction n as [| n IH]; intros sched capacity gs buf Hn Hb Hc; [lia |].
  cbn [wait].
  destruct (pick (hd 0 sched) gs) as [[e gs'] |] eqn:E.
  - apply pick_some in E.
    assert (Hn' : List.length (List.concat gs') = n).
    { apply Permutation_length in E. cbn in E. lia. }
    destruct (List.length buf <? capacity) eqn:Hlt; [| reflexivity].
    apply Nat.ltb_lt in Hlt.
    apply IH; [exact Hn' | rewrite length_app; cbn; lia | rewrite length_app; cbn; lia].
  - apply pick_none in E. rewrite E in Hn. discriminate.
Qed.

(** ** An order of the runtime's choice *)

Lemma takeAt_some :
  forall (A : Type) (l rest : list A) (k : nat) (x : A),
    takeAt k l = Some (x, rest) -> Permutation l (x :: rest).
Proof.
  intros A. induction l as [| y l IH]; intros rest k x; [destruct k; discriminate |].
  destruct k as [| k]; cbn [takeAt].
  - intros H. inversion H; subst. reflexivity.
  - destruct (takeAt k l) as [[z r] |] eqn:E; intros H; inversion H; subst.
    + apply IH in E. rewrite E. apply perm_swap.
    + reflexivity.
Qed.

Lemma takeAt_none :
  forall (A : Type) (l : list A) (k : nat), takeAt k l = None -> l = [].
Proof.
  intros A l k. destruct l as [| y l]; [reflexivity |].
  destruct k; cbn; [discriminate |]. destruct (takeAt k l) as [[z r] |]; discriminate.
Qed.

(** An order of the runtime's choice holds each element once. *)
Lemma rangeKeys_perm :
  forall (A : Type) (n : nat) (choices : list nat) (keys : list A),
    List.length keys = n -> Permutation (rangeKeys n choices keys) keys.
Proof.
  intros A. induction n as [| n IH]; intros choices keys Hn.
  - apply length_zero_iff_nil in Hn. subst. reflexivity.
  - cbn [rangeKeys]. destruct (takeAt (hd 0 choices) keys) as [[x rest] |] eqn:E.
    + apply takeAt_some in E. rewrite E. apply perm_skip. apply IH.
      apply Permutation_length in E. cbn in E. lia.
    + apply takeAt_none in E. subst. discriminate.
Qed.

Section Properties.

Context {R change : Type} {repo : Repo R change} {runtime : Runtime R}.
Variable GitInitialCommit : Commit.
Variable Current : Commit.

Let World := @World R change.
Let Config := @Config R change.
Let Check := @Check R change.

(** ** The monad *)

Lemma bind_done {A B : Type} (m : M A) (k : A -> M B) (w w' : World) (a : A) :
  m w = (Done a, w') -> bind m k w = k a w'.
Proof. intros E. unfold bind. rewrite E. reflexivity. Qed.

Lemma bind_hung {A B : Type} (m : M A) (k : A -> M B) (w w' : World) :
  m w = (Hung, w') -> bind m k w = (Hung, w').
Proof. intros E. unfold bind. rewrite E. reflexivity. Qed.

Lemma call_eq {A : Type} (f : R -> A * R) (ev : A -> Event) (w : World) a r :
  f (env w) = (a, r) ->
  call f ev w = (Done a, {| env := r; trace := trace w ++ [ev a] |}).
Proof. intros E. unfold call. rewrite E. reflexivity. Qed.

(** ** runChecks *)

Lemma launch_eq :
  forall (maxDuration : Z) (chg : option change) (enabledChecks : list Check) (w : World),
    launch maxDuration chg enabledChecks w
    = (Done (map (fun c => sends maxDuration c
                             (Run c chg (env w), Sub (took c chg (env w))))
                 enabledChecks),
       {| env := env w;
          trace := trace w ++ map (fun c => EvRun (GetName c) chg) enabledChecks |}).
Proof.
  intros maxDuration chg enabledChecks.
  induction enabledChecks as [| c cs IH]; intros w.
  - destruct w as [r tr]. cbn. rewrite app_nil_r. reflexivity.
  - cbn [launch]. unfold callRun, bind, emit, ask, ret. cbn [env trace].
    rewrite IH. cbn [env trace map]. rewrite <- app_assoc. reflexivity.
Qed.

Lemma drain_eq :
  forall (buf : list error) (err : option error) (w : World),
    drain buf err w
    = (Done (match buf, err with
             | [], None => None
             | _, _ => Some (ErrChecksFailed (Sub (sinceStart (env w))))
             end),
       {| env := env w; trace := trace w ++ map EvPrint buf |}).
Proof.
  induction buf as [| e buf IH]; intros err w.
  - destruct w as [r tr]. cbn. rewrite app_nil_r. destruct err; reflexivity.
  - cbn [drain]. unfold bind, emit. rewrite IH. cbn [env trace map].
    rewrite <- app_assoc. destruct buf; reflexivity.
Qed.

(** The checks are started in an order that holds each of them once. *)
Lemma startedChecks_perm :
  forall (config : Config) (modes : list Mode) (r : R),
    Permutation (startedChecks config modes r) (fst (EnabledChecks config modes)).
Proof. intros. unfold startedChecks. apply rangeKeys_perm. reflexivity. Qed.

(** What the goroutines have to send does not depend on the order in
    which they were started. *)
Lemma startedChecks_toSend :
  forall (config : Config) (chg : option change) (modes : list Mode) (r : R),
    Permutation
      (List.concat
         (map (fun c => sends (snd (EnabledChecks config modes)) c
                          (Run c chg r, Sub (took c chg r)))
              (startedChecks config modes r)))
      (List.concat (toSend config chg modes r)).
Proof.
  intros config chg modes r. unfold toSend. rewrite <- !flat_map_concat_map.
  apply Permutation_flat_map. apply startedChecks_perm.
Qed.

(** [runChecks] in one piece: every enabled check is run on the change,
    in the order of the scheduler, then either the sends overflow [errs] and
    nothing more happens, or the errors received are printed and summed
    up. *)
Lemma runChecks_eq :
  forall (config : Config) (chg : option change) (modes : list Mode) (w : World),
    runChecks config chg modes w
    = let enabledChecks := fst (EnabledChecks config modes) in
      let maxDuration := snd (EnabledChecks config modes) in
      let gs := map (fun c => sends maxDuration c
                                (Run c chg (env w), Sub (took c chg (env w))))
                    (startedChecks config modes (env w)) in
      let ran := trace w
                 ++ map (fun c => EvRun (GetName c) chg)
                        (startedChecks config modes (env w)) in
      match wait (List.length (List.concat gs)) (schedule (env w))
                 (List.length enabledChecks) gs [] with
      | Hung => (Hung, {| env := env w; trace := ran |})
      | Done buf =>
          (Done (match buf with
                 | [] => None
                 | _ :: _ => Some (ErrChecksFailed (Sub (sinceStart (env w))))
                 end),
           {| env := env w; trace := ran ++ map EvPrint buf |})
      end.
Proof.
  intros config chg modes w. unfold runChecks, startedChecks.
  destruct (EnabledChecks config modes) as [enabledChecks maxDuration].
  cbn [fst snd]. unfold ask at 1. unfold bind at 1 2. rewrite launch_eq.
  unfold bind, ask. cbn [env trace].
  match goal with |- context [wait ?n ?s ?c ?g ?b] => destruct (wait n s c g b) as [buf |] end.
  - rewrite drain_eq. cbn [env trace]. destruct buf; reflexivity.
  - reflexivity.
Qed.

Lemma stashes_app :
  forall tr1 tr2 : list (@Event change),
    stashes (tr1 ++ tr2) = stashes tr1 + stashes tr2.
Proof. intros. unfold stashes. rewrite filter_app, length_app. reflexivity. Qed.

Lemma stashes_runs :
  forall (chg : option change) (cs : list Check),
    stashes (map (fun c => EvRun (GetName c) chg) cs) = 0.
Proof. induction cs as [| c cs IH]; [reflexivity | exact IH]. Qed.

Lemma stashes_prints :
  forall buf : list error, stashes (map (@EvPrint change) buf) = 0.
Proof. induction buf as [| e buf IH]; [reflexivity | exact IH]. Qed.

Lemma runChecks_stashes :
  forall (config : Config) (chg : option change) (modes : list Mode) (w : World),
    stashes (trace (snd (runChecks config chg modes w))) = stashes (trace w).
Proof.
  intros. rewrite runChecks_eq. cbv zeta.
  match goal with |- context [wait ?n ?s ?c ?g ?b] => destruct (wait n s c g b) as [buf |] end;
    cbn [snd trace]; rewrite !stashes_app, ?stashes_runs, ?stashes_prints; lia.
Qed.

Lemma runChecks_trace :
  forall (config : Config) (chg : option change) (modes : list Mode) (w : World),
    exists tl : list Event,
      trace (snd (runChecks config chg modes w))
      = trace w
        ++ map (fun c => EvRun (GetName c) chg) (startedChecks config modes (env w))
        ++ tl.
Proof.
  intros. rewrite runChecks_eq. cbv zeta.
  match goal with |- context [wait ?n ?s ?c ?g ?b] => destruct (wait n s c g b) as [buf |] end;
    cbn [snd trace].
  - exists (map EvPrint buf). rewrite app_assoc. reflexivity.
  - exists []. rewrite app_nil_r. reflexivity.
Qed.

(** *** When it returns *)

(** When what the goroutines have to send fits in [errs], [runChecks]
    returns: it has printed every error sent, each once, and its result is
    an error exactly when something was sent. *)
Lemma runChecks_fits :
  forall (config : Config) (chg : option change) (modes : list Mode) (w : World),
    List.length (List.concat (toSend config chg modes (env w)))
    <= List.length (fst (EnabledChecks config modes)) ->
    exists buf : list error,
      Permutation buf (List.concat (toSend config chg modes (env w)))
      /\ runChecks config chg modes w
         = (Done (match buf with
                  | [] => None
                  | _ :: _ => Some (ErrChecksFailed (Sub (sinceStart (env w))))
                  end),
            {| env := env w;
               trace := (trace w
                         ++ map (fun c => EvRun (GetName c) chg)
                                (startedChecks config modes (env w)))
                        ++ map EvPrint buf |}).
Proof.
  intros config chg modes w Hfit. rewrite runChecks_eq. cbv zeta.
  pose proof (startedChecks_toSend config chg modes (env w)) as Hp.
  rewrite <- (Permutation_length Hp) in Hfit.
  match goal with
  | |- context [wait ?n ?s ?c ?g []] =>
      destruct (wait_fits n s c g [] eq_refl Hfit) as [buf [Ew Ep]]
  end.
  exists buf. split; [rewrite Ep; exact Hp |]. rewrite Ew. reflexivity.
Qed.

(** When it does not fit, [runChecks] never returns and prints nothing. *)
Lemma runChecks_overflows :
  forall (config : Config) (chg : option change) (modes : list Mode) (w : World),
    List.length (fst (EnabledChecks config modes))
    < List.length (List.concat (toSend config chg modes (env w))) ->
    runChecks config chg modes w
    = (Hung,
       {| env := env w;
          trace := trace w
                   ++ map (fun c => EvRun (GetName c) chg)
                          (startedChecks config modes (env w)) |}).
Proof.
  intros config chg modes w Hover. rewrite runChecks_eq. cbv zeta.
  pose proof (startedChecks_toSend config chg modes (env w)) as Hp.
  rewrite <- (Permutation_length Hp) in Hover.
  rewrite wait_overflows; [reflexivity | reflexivity | cbn; lia | cbn; exact Hover].
Qed.

(** A budget of seconds that fits in a [time.Duration] is not wrapped. *)
Lemma Seconds_exact :
  forall n : Z,
    (-9223372036 <= n <= 9223372036)%Z -> Seconds n = (n * Second)%Z.
Proof.
  intros n Hn. unfold Seconds, int64, Second.
  rewrite Z.mod_small; lia.
Qed.

(** The errors one goroutine sends are those of its two ifs. *)
Lemma In_sends :
  forall (maxDuration : Z) (c : Check) (err : option error) (duration : Z) (e : error),
    In e (sends maxDuration c (err, duration))
    <-> err = Some e
        \/ ((Seconds maxDuration < duration)%Z /\ e = ErrCheckTook (GetName c) duration).
Proof.
  intros maxDuration c err duration e. unfold sends.
  rewrite in_app_iff.
  destruct (Z.ltb_spec (Seconds maxDuration) duration) as [Hlt | Hge];
    destruct err as [e' |]; cbn; split; intros H.
  - destruct H as [[-> | []] | [<- | []]]; [left | right]; auto.
  - destruct H as [H | [_ ->]]; [inversion H; subst |]; auto.
  - destruct H as [[] | [<- | []]]; right; auto.
  - destruct H as [H | [_ ->]]; [discriminate |]; auto.
  - destruct H as [[-> | []] | []]; left; auto.
  - destruct H as [H | [Hlt _]]; [inversion H; subst; auto | lia].
  - destruct H as [[] | []].
  - destruct H as [H | [Hlt _]]; [discriminate | lia].
Qed.

Lemma In_toSend :
  forall (config : Config) (chg : option change) (modes : list Mode) (r : R) (e : error),
    In e (List.concat (toSend config chg modes r))
    <-> exists c : Check,
          In c (fst (EnabledChecks config modes))
          /\ (Run c chg r = Some e
              \/ ((Seconds (snd (EnabledChecks config modes)) < Sub (took c chg r))%Z
                  /\ e = ErrCheckTook (GetName c) (Sub (took c chg r)))).
Proof.
  intros config chg modes r e. unfold toSend. rewrite in_concat. split.
  - intros [q [Hq He]]. apply in_map_iff in Hq. destruct Hq as [c [<- Hc]].
    exists c. split; [exact Hc |]. apply In_sends in He. exact He.
  - intros [c [Hc He]]. eexists. split.
    + apply in_map_iff. exists c. split; [reflexivity | exact Hc].
    + apply In_sends. exact He.
Qed.

(** On a run whose sends fit in [errs], a check that took longer than the
    budget is reported, whatever it returned, and the run ends with an
    error. *)
Lemma runChecks_reports_slow_check :
  forall (config : Config) (chg : option change) (modes : list Mode) (w : World)
         (c : Check),
    List.length (List.concat (toSend config chg modes (env w)))
    <= List.length (fst (EnabledChecks config modes)) ->
    In c (fst (EnabledChecks config modes)) ->
    (Seconds (snd (EnabledChecks config modes)) < Sub (took c chg (env w)))%Z ->
    In (EvPrint (ErrCheckTook (GetName c) (Sub (took c chg (env w)))))
       (trace (snd (runChecks config chg modes w)))
    /\ fst (runChecks config chg modes w)
       = Done (Some (ErrChecksFailed (Sub (sinceStart (env w))))).
Proof.
  intros config chg modes w c Hfit Hc Hslow.
  destruct (runChecks_fits config chg modes w Hfit) as [buf [Hp E]].
  assert (Hin : In (ErrCheckTook (GetName c) (Sub (took c chg (env w)))) buf).
  { apply (Permutation_in _ (Permutation_sym Hp)). apply In_toSend.
    exists c. split; [exact Hc | right; split; [exact Hslow | reflexivity]]. }
  rewrite E. cbn [fst snd trace]. split.
  - apply in_or_app. right. apply in_map. exact Hin.
  - destruct buf; [destruct Hin | reflexivity].
Qed.

(** On a run whose sends fit in [errs], the result is an error exactly
    when a check returned an error or took longer than the budget, and the
    error then holds the time the run took. *)
Lemma runChecks_result_iff :
  forall (config : Config) (chg : option change) (modes : list Mode) (w : World),
    List.length (List.concat (toSend config chg modes (env w)))
    <= List.length (fst (EnabledChecks config modes)) ->
    exists result : option error,
      fst (runChecks config chg modes w) = Done result
      /\ (result <> None
          <-> exists c : Check,
                In c (fst (EnabledChecks config modes))
                /\ (Run c chg (env w) <> None
                    \/ (Seconds (snd (EnabledChecks config modes))
                        < Sub (took c chg (env w)))%Z))
      /\ (result <> None
          -> result = Some (ErrChecksFailed (Sub (sinceStart (env w))))).
Proof.
  intros config chg modes w Hfit.
  destruct (runChecks_fits config chg modes w Hfit) as [buf [Hp E]].
  rewrite E. cbn [fst]. eexists. split; [reflexivity |]. split; [split |].
  - intros Hres. destruct buf as [| e buf]; [congruence |].
    assert (Hin : In e (List.concat (toSend config chg modes (env w)))).
    { apply (Permutation_in _ Hp). left. reflexivity. }
    apply In_toSend in Hin. destruct Hin as [c [Hc [Hr | [Hs _]]]];
      exists c; (split; [exact Hc |]); [left; congruence | right; exact Hs].
  - intros [c [Hc Hbad]].
    assert (Hin : exists e, In e (List.concat (toSend config chg modes (env w)))).
    { destruct Hbad as [Hr | Hs].
      - destruct (Run c chg (env w)) as [e |] eqn:Er; [| congruence].
        exists e. apply In_toSend. exists c. split; [exact Hc | left; exact Er].
      - eexists. apply In_toSend. exists c.
        split; [exact Hc | right; split; [exact Hs | reflexivity]]. }
    destruct Hin as [e Hin]. apply (Permutation_in _ (Permutation_sym Hp)) in Hin.
    destruct buf; [destruct Hin | discriminate].
  - intros Hres. destruct buf; [congruence | reflexivity].
Qed.

(** ** runPreCommit *)

(** C10.  When [Stash] returns an error, [runPreCommit] returns it at
    once: the call to [Stash] is all it did to the repository. *)
Theorem runPreCommit_stash_error :
  forall (config : Config) (w : World) (stashed : bool) (e : error) (r : R),
    Stash (env w) = ((stashed, Some e), r) ->
    runPreCommit Current config w
    = (Done (Some e),
       {| env := r; trace := trace w ++ [EvStash stashed (Some e)] |}).
Proof.
  intros config w stashed e r E.
  unfold runPreCommit.
  unfold runPreCommit, stash.
  rewrite (bind_done _ _ _ _ _ (call_eq _ _ _ _ _ E)).
  reflexivity.
Qed.

(** X26.  When [Stash] reported that it stashed something and step 2
    returns, [Restore] is called after step 2 whatever error step 2 ended
    with, and it is the last thing [runPreCommit] does; the error of step 2
    is the one returned when there is one, and the error of [Restore]
    otherwise. *)
Theorem runPreCommit_restores :
  forall (config : Config) (w w3 : World) (r1 r2 r4 : R)
         (chg : option change) (berr primary rerr : option error),
    Stash (env w) = ((true, None), r1) ->
    Between Current (HEAD r1) (IgnorePatterns config) r1 = ((chg, berr), r2) ->
    (match chg with
     | Some _ => runChecks config chg [PreCommit]
     | None => ret berr
     end)
      {| env := r2;
         trace := trace w
                  ++ [EvStash true None;
                      EvBetween Current (HEAD r1) (IgnorePatterns config) chg berr] |}
    = (Done primary, w3) ->
    Restore (env w3) = (rerr, r4) ->
    exists result : option error,
      runPreCommit Current config w
      = (Done result, {| env := r4; trace := trace w3 ++ [EvRestore rerr] |})
      /\ (forall e, primary = Some e -> result = Some e)
      /\ (primary = None -> result = rerr).
Proof.
  intros config w w3 r1 r2 r4 chg berr primary rerr Es Eb Ec Er.
  exists (match primary with None => rerr | Some _ => primary end).
  split; [| split]; [| intros e ->; reflexivity | intros ->; reflexivity].
  unfold runPreCommit, stash.
  rewrite (bind_done _ _ _ _ _ (call_eq _ _ _ _ _ Es)). cbn [fst snd].
  unfold ask at 1. unfold bind at 1. cbn [env trace].
  unfold between.
  erewrite bind_done; [| apply call_eq; cbn [env]; exact Eb].
  cbn [fst snd].
  cbn [trace env]. rewrite <- app_assoc. cbn [app].
  erewrite bind_done; [| exact Ec].
  unfold restore.
  erewrite bind_done; [| apply call_eq; exact Er].
  reflexivity.
Qed.


(** ** runPrePush: one line *)

Lemma prePushLine_moved :
  forall (config : Config) (line : string) (st st' : locals) (w w' : World),
    let matches := FindStringSubmatch rePrePush (dropLast line) in
    let from := nth 4 matches EmptyString in
    let to := nth 2 matches EmptyString in
    List.length matches = 5 ->
    to <> gitNilCommit ->
    moveTo to st w = (Done (None, st'), w') ->
    prePushLine GitInitialCommit config line st w
    = (b <- between (if String.eqb from gitNilCommit then GitInitialCommit else from)
                    to (IgnorePatterns config) ;;
       let (chg, err) := b in
       match err with
       | Some _ => ret (Return err st')
       | None =>
           err <- runChecks config chg [PrePush] ;;
           match err with
           | Some _ => ret (Return err st')
           | None => ret (Continue st')
           end
       end) w'.
Proof.
  intros config line st st' w w' matches from to Hlen Hto Hmove.
  unfold prePushLine. fold matches. rewrite Hlen. cbn [Nat.eqb negb].
  fold to. rewrite (proj2 (String.eqb_neq _ _) Hto).
  erewrite bind_done; [| exact Hmove]. reflexivity.
Qed.

(** C1, as amended.  A line whose local-sha is all zeros is skipped: the
    turn of the loop ends at once, the repository is not touched, no
    ChangeSet is computed, no check is run, and the loop goes on with the
    next line. *)
Theorem prePushLine_deleted_ref_skipped :
  forall (config : Config) (line : string) (lines : list string) (final : error)
         (st : locals) (w : World),
    nth 2 (FindStringSubmatch rePrePush (dropLast line)) EmptyString = gitNilCommit ->
    prePushLine GitInitialCommit config line st w = (Done (Continue st), w)
    /\ prePushLoop GitInitialCommit config (line :: lines) final st w
       = prePushLoop GitInitialCommit config lines final st w.
Proof.
  intros config line lines final st w Hto.
  assert (E : prePushLine GitInitialCommit config line st w = (Done (Continue st), w)).
  { unfold prePushLine.
    rewrite (nth_FindStringSubmatch_rePrePush (dropLast line) 2)
      by (rewrite Hto; discriminate).
    cbn [Nat.eqb negb]. rewrite Hto, String.eqb_refl. reflexivity. }
  split; [exact E |].
  cbn [prePushLoop]. erewrite bind_done; [| exact E]. reflexivity.
Qed.

(** For a line whose remote-sha is all zeros and whose local-sha is not,
    once local-sha is checked out the ChangeSet is computed by [Between]
    from the root reference. *)
Lemma prePushLine_new_branch_from_root :
  forall (config : Config) (line : string) (st st' : locals) (w w' : World)
         (chg : option change) (err : option error) (r : R),
    let matches := FindStringSubmatch rePrePush (dropLast line) in
    let to := nth 2 matches EmptyString in
    nth 4 matches EmptyString = gitNilCommit ->
    to <> gitNilCommit ->
    moveTo to st w = (Done (None, st'), w') ->
    Between GitInitialCommit to (IgnorePatterns config) (env w') = ((chg, err), r) ->
    exists tl : list Event,
      trace (snd (prePushLine GitInitialCommit config line st w))
      = trace w'
        ++ EvBetween GitInitialCommit to (IgnorePatterns config) chg err :: tl.
Proof.
  intros config line st st' w w' chg err r matches to Hfrom Hto Hmove Eb.
  rewrite (prePushLine_moved config line st st' w w');
    [| apply (nth_FindStringSubmatch_rePrePush _ 4); fold matches;
       rewrite Hfrom; discriminate
     | exact Hto | exact Hmove].
  fold matches. rewrite Hfrom, String.eqb_refl. fold to.
  unfold between. erewrite bind_done; [| apply call_eq; exact Eb]. cbn [fst snd].
  destruct err as [e |].
  - exists []. reflexivity.
  - unfold bind.
    match goal with
    | |- context [runChecks ?c ?g ?m ?x] =>
        destruct (runChecks_trace c g m x) as [tl Htl];
        destruct (runChecks c g m x) as [[[e |] |] w'']
    end; cbn [snd ret] in *; rewrite Htl; cbn [trace];
      rewrite <- app_assoc; eexists; reflexivity.
Qed.

(** For such a line, when [Between] gives the ChangeSet without an error,
    every check enabled for pre-push is run on it, in the order of the
    scheduler. *)
Lemma prePushLine_new_branch_checked :
  forall (config : Config) (line : string) (st st' : locals) (w w' : World)
         (chg : option change) (r : R),
    let matches := FindStringSubmatch rePrePush (dropLast line) in
    let to := nth 2 matches EmptyString in
    nth 4 matches EmptyString = gitNilCommit ->
    to <> gitNilCommit ->
    moveTo to st w = (Done (None, st'), w') ->
    Between GitInitialCommit to (IgnorePatterns config) (env w') = ((chg, None), r) ->
    exists tl : list Event,
      trace (snd (prePushLine GitInitialCommit config line st w))
      = trace w'
        ++ EvBetween GitInitialCommit to (IgnorePatterns config) chg None
           :: map (fun c => EvRun (GetName c) chg) (startedChecks config [PrePush] r)
        ++ tl.
Proof.
  intros config line st st' w w' chg r matches to Hfrom Hto Hmove Eb.
  rewrite (prePushLine_moved config line st st' w w');
    [| apply (nth_FindStringSubmatch_rePrePush _ 4); fold matches;
       rewrite Hfrom; discriminate
     | exact Hto | exact Hmove].
  fold matches. rewrite Hfrom, String.eqb_refl. fold to.
  unfold between. erewrite bind_done; [| apply call_eq; exact Eb]. cbn [fst snd].
  unfold bind.
  match goal with
  | |- context [runChecks ?c ?g ?m ?x] =>
      destruct (runChecks_trace c g m x) as [tl Htl];
      destruct (runChecks c g m x) as [[[e |] |] w'']
  end; cbn [snd ret] in *; rewrite Htl; cbn [trace env];
    rewrite <- app_assoc; exists tl; reflexivity.
Qed.

(** A line that does not match [rePrePush] ends the loop with the
    protocol error; the deferred function of [runPrePush] runs after it as
    after any other return. *)
Lemma prePushLine_malformed :
  forall (config : Config) (line : string) (st : locals) (w : World),
    List.length (FindStringSubmatch rePrePush (dropLast line)) <> 5 ->
    prePushLine GitInitialCommit config line st w
    = (Done (Return (Some (ErrUnexpectedStdin line)) st), w).
Proof.
  intros config line st w Hlen. unfold prePushLine.
  rewrite (proj2 (Nat.eqb_neq _ _) Hlen). reflexivity.
Qed.

(** ** runPrePush: the deferred function *)

(** What the deferred function of [runPrePush] does: it checks out the
    original ref (or the original commit when there was none) when [curr]
    is not the original commit, then restores the stash when something was
    stashed; an error of these calls is returned only when there was none
    before it. *)
Lemma prePushDeferred_eq :
  forall (previous : Commit) (previousRef : string) (err : option error)
         (st : locals) (w : World),
    let p := if String.eqb previousRef EmptyString then previous else previousRef in
    let moved := negb (String.eqb (curr st) previous) in
    let e1 := if moved then fst (Checkout p (env w)) else None in
    let r1 := if moved then snd (Checkout p (env w)) else env w in
    let e2 := if stashed st then fst (Restore r1) else None in
    let r2 := if stashed st then snd (Restore r1) else r1 in
    prePushDeferred previous previousRef err st w
    = (Done (match err, e1 with
             | Some _, _ => err
             | None, Some _ => e1
             | None, None => e2
             end),
       {| env := r2;
          trace := trace w
                   ++ (if moved then [EvCheckout p e1] else [])
                   ++ (if stashed st then [EvRestore e2] else []) |}).
Proof.
  intros previous previousRef err st w p moved e1 r1 e2 r2.
  unfold prePushDeferred. fold p. fold moved.
  subst e1 r1 e2 r2. destruct w as [r tr]. cbn [env trace].
  destruct moved; destruct (stashed st);
    unfold bind, ret, checkout, restore, call; cbn [env trace].
  - destruct (Checkout p r) as [e1 r1]. cbn [fst snd env trace].
    destruct (Restore r1) as [e2 r2]. cbn [fst snd].
    rewrite <- app_assoc. destruct err, e1; reflexivity.
  - destruct (Checkout p r) as [e1 r1]. cbn [fst snd].
    destruct err, e1; reflexivity.
  - destruct (Restore r) as [e2 r2]. cbn [fst snd app].
    destruct err; reflexivity.
  - rewrite app_nil_r. destruct err; reflexivity.
Qed.

Lemma runPrePush_defers :
  forall (config : Config) (stdin : Reader) (w w1 : World)
         (err : option error) (st : locals),
    prePushLoop GitInitialCommit config (readLines stdin) (readErr stdin)
      {| curr := HEAD (env w); stashed := false; triedToStash := false |} w
    = (Done (err, st), w1) ->
    runPrePush GitInitialCommit config stdin w
    = prePushDeferred (HEAD (env w)) (Ref (env w)) err st w1.
Proof.
  intros config stdin w w1 err st El. unfold runPrePush, ask.
  unfold bind at 1 2. cbv beta iota. erewrite bind_done; [| exact El]. reflexivity.
Qed.

(** ** runPrePush: from a line to the run *)

Lemma grows_ret : forall (A : Type) (a : A), grows (@ret R change A a).
Proof. intros A a w. exists []. cbn. rewrite app_nil_r. reflexivity. Qed.

Lemma grows_ask : forall (A : Type) (f : R -> A), grows (@ask R change A f).
Proof. intros A f w. exists []. cbn. rewrite app_nil_r. reflexivity. Qed.

Lemma grows_call :
  forall (A : Type) (f : R -> A * R) (ev : A -> @Event change), grows (call f ev).
Proof.
  intros A f ev w. unfold call. destruct (f (env w)) as [a r].
  exists [ev a]. reflexivity.
Qed.

(** What comes after [m] only adds to the trace [m] leaves. *)
Lemma bind_grows :
  forall (A B : Type) (m : @M R change A) (k : A -> @M R change B) (w : World),
    (forall a : A, grows (k a)) ->
    exists tl : list Event, trace (snd (bind m k w)) = trace (snd (m w)) ++ tl.
Proof.
  intros A B m k w Hk. unfold bind. destruct (m w) as [[a |] w'].
  - apply Hk.
  - exists []. cbn. rewrite app_nil_r. reflexivity.
Qed.

Lemma grows_bind :
  forall (A B : Type) (m : @M R change A) (k : A -> @M R change B),
    grows m -> (forall a : A, grows (k a)) -> grows (bind m k).
Proof.
  intros A B m k Hm Hk w.
  destruct (bind_grows A B m k w Hk) as [tl2 E2]. destruct (Hm w) as [tl1 E1].
  exists (tl1 ++ tl2). rewrite E2, E1, app_assoc. reflexivity.
Qed.

Lemma grows_runChecks :
  forall (config : Config) (chg : option change) (modes : list Mode),
    grows (runChecks config chg modes).
Proof.
  intros config chg modes w. destruct (runChecks_trace config chg modes w) as [tl E].
  eexists. exact E.
Qed.

Lemma grows_moveTo : forall (to : Commit) (st : locals), grows (moveTo to st).
Proof.
  intros to st. unfold moveTo. destruct (String.eqb to (curr st)); [apply grows_ret |].
  apply grows_bind.
  - destruct (triedToStash st); [apply grows_ret |].
    apply grows_bind; [apply grows_call | intros s; apply grows_ret].
  - intros [err st1]. destruct err; [apply grows_ret |].
    apply grows_bind; [apply grows_call | intros e; apply grows_ret].
Qed.

Lemma grows_prePushLine :
  forall (config : Config) (line : string) (st : locals),
    grows (prePushLine GitInitialCommit config line st).
Proof.
  intros config line st. unfold prePushLine.
  destruct (negb _); [apply grows_ret |].
  destruct (String.eqb _ gitNilCommit); [apply grows_ret |].
  apply grows_bind; [apply grows_moveTo |]. intros [err st'].
  destruct err; [apply grows_ret |].
  apply grows_bind; [apply grows_call |]. intros [chg err].
  destruct err; [apply grows_ret |].
  apply grows_bind; [apply grows_runChecks |]. intros err.
  destruct err; apply grows_ret.
Qed.

Lemma grows_prePushLoop :
  forall (config : Config) (lines : list string) (final : error) (st : locals),
    grows (prePushLoop GitInitialCommit config lines final st).
Proof.
  intros config lines final. induction lines as [| line lines IH]; intros st.
  - apply grows_ret.
  - cbn [prePushLoop]. apply grows_bind; [apply grows_prePushLine |].
    intros [st' | err st']; [apply IH | apply grows_ret].
Qed.

Lemma grows_prePushDeferred :
  forall (previous : Commit) (previousRef : string) (err : option error) (st : locals),
    grows (prePushDeferred previous previousRef err st).
Proof.
  intros previous previousRef err st. unfold prePushDeferred.
  apply grows_bind.
  - destruct (negb _); [| apply grows_ret].
    apply grows_bind; [apply grows_call | intros e; apply grows_ret].
  - intros e. destruct (stashed st); [| apply grows_ret].
    apply grows_bind; [apply grows_call | intros e2; apply grows_ret].
Qed.

(** A turn of the loop that returns, returns an error. *)
Lemma prePushLine_returns_error :
  forall (config : Config) (line : string) (st st' : locals) (w w' : World)
         (err : option error),
    prePushLine GitInitialCommit config line st w = (Done (Return err st'), w') ->
    err <> None.
Proof.
  intros config line st st' w w' err. unfold prePushLine.
  destruct (negb _); [intros H; inversion H; discriminate |].
  destruct (String.eqb _ gitNilCommit); [discriminate |].
  unfold bind at 1. destruct (moveTo _ st w) as [[[e st1] |] w1]; [| discriminate].
  destruct e; [intros H; inversion H; discriminate |].
  unfold bind at 1. destruct (between _ _ _ w1) as [[[chg e] |] w2]; [| discriminate].
  destruct e; [intros H; inversion H; discriminate |].
  unfold bind. destruct (runChecks config chg [PrePush] w2) as [[e |] w3]; [| discriminate].
  destruct e; [intros H; inversion H; discriminate | discriminate].
Qed.

(** The loop after lines that all went through goes on with the lines
    that follow. *)
Lemma prePushLoop_app :
  forall (config : Config) (before rest : list string) (final : error)
         (st st1 : locals) (w w1 : World),
    prePushLoop GitInitialCommit config before io_EOF st w = (Done (None, st1), w1) ->
    prePushLoop GitInitialCommit config (before ++ rest) final st w
    = prePushLoop GitInitialCommit config rest final st1 w1.
Proof.
  intros config before rest final. induction before as [| line before IH];
    intros st st1 w w1 E.
  - cbn in E. inversion E; subst. reflexivity.
  - cbn [app prePushLoop] in *. unfold bind in *.
    destruct (prePushLine GitInitialCommit config line st w) as [[c |] w'] eqn:El;
      [| discriminate].
    destruct c as [st' | err st'].
    + apply IH. exact E.
    + apply prePushLine_returns_error in El. cbn in E. inversion E; subst. congruence.
Qed.

(** A run that comes to a line does what the turn of the loop for that
    line does, and goes on from there. *)
Lemma runPrePush_line :
  forall (config : Config) (stdin : Reader) (before : list string) (line : string)
         (after : list string) (st1 : locals) (w w1 : World),
    readLines stdin = before ++ line :: after ->
    prePushLoop GitInitialCommit config before io_EOF
      {| curr := HEAD (env w); stashed := false; triedToStash := false |} w
    = (Done (None, st1), w1) ->
    exists tl : list Event,
      trace (snd (runPrePush GitInitialCommit config stdin w))
      = trace (snd (prePushLine GitInitialCommit config line st1 w1)) ++ tl.
Proof.
  intros config stdin before line after st1 w w1 Hlines Hbefore.
  unfold runPrePush, ask. unfold bind at 1 2. cbv beta iota.
  match goal with
  | |- context [bind ?m ?k w] =>
      destruct (bind_grows _ _ m k w) as [tl1 E1];
      [intros [err st]; apply grows_prePushDeferred |]
  end.
  rewrite E1, Hlines, (prePushLoop_app config before (line :: after) _ _ st1 w w1 Hbefore).
  cbn [prePushLoop].
  match goal with
  | |- context [bind ?m ?k w1] =>
      destruct (bind_grows _ _ m k w1) as [tl2 E2];
      [intros [st' | err st']; [apply grows_prePushLoop | apply grows_ret] |]
  end.
  rewrite E2. exists (tl2 ++ tl1). rewrite app_assoc. reflexivity.
Qed.

(** C2, as amended.  For a line [runPrePush] comes to, whose remote-sha
    is all zeros and whose local-sha is not, once the stash and the checkout
    of local-sha have gone through, the ChangeSet is computed by [Between]
    from the root reference to local-sha. *)
Theorem runPrePush_new_branch_from_root :
  forall (config : Config) (stdin : Reader) (before : list string) (line : string)
         (after : list string) (st1 st2 : locals) (w w1 w2 : World)
         (chg : option change) (err : option error) (r : R),
    let matches := FindStringSubmatch rePrePush (dropLast line) in
    let to := nth 2 matches EmptyString in
    readLines stdin = before ++ line :: after ->
    prePushLoop GitInitialCommit config before io_EOF
      {| curr := HEAD (env w); stashed := false; triedToStash := false |} w
    = (Done (None, st1), w1) ->
    nth 4 matches EmptyString = gitNilCommit ->
    to <> gitNilCommit ->
    moveTo to st1 w1 = (Done (None, st2), w2) ->
    Between GitInitialCommit to (IgnorePatterns config) (env w2) = ((chg, err), r) ->
    exists tl : list Event,
      trace (snd (runPrePush GitInitialCommit config stdin w))
      = trace w2
        ++ EvBetween GitInitialCommit to (IgnorePatterns config) chg err :: tl.
Proof.
  intros config stdin before line after st1 st2 w w1 w2 chg err r matches to
         Hlines Hbefore Hfrom Hto Hmove Eb.
  destruct (runPrePush_line config stdin before line after st1 w w1 Hlines Hbefore)
    as [tl1 E1].
  destruct (prePushLine_new_branch_from_root config line st1 st2 w1 w2 chg err r
              Hfrom Hto Hmove Eb) as [tl2 E2].
  rewrite E1, E2. exists (tl2 ++ tl1). rewrite <- app_assoc. reflexivity.
Qed.


(** ** runPrePush: the calls to Stash *)

Ltac count_stashes :=
  cbn [env trace fst snd localsOf pending triedToStash stashed curr];
  rewrite ?stashes_app; cbn [stashes filter isStash List.length]; try lia.

Lemma moveTo_stashes :
  forall (to : Commit) (st : locals) (w : World),
    match moveTo to st w with
    | (Done r, w') =>
        stashes (trace w') + pending (snd r) <= stashes (trace w) + pending st
    | (Hung, w') => stashes (trace w') <= stashes (trace w) + pending st
    end.
Proof.
  intros to st w. unfold moveTo.
  destruct (String.eqb to (curr st)); [cbn; lia |].
  unfold pending. destruct (triedToStash st) eqn:T.
  - unfold bind, ret, checkout, call.
    destruct (Checkout to (env w)) as [e r]. count_stashes. rewrite T. lia.
  - unfold bind, ret, stash, checkout, call.
    destruct (Stash (env w)) as [[b e] r]. cbn [fst snd env trace].
    destruct e as [e |].
    + count_stashes.
    + cbn [env trace]. destruct (Checkout to r) as [e r']. count_stashes.
Qed.

Lemma prePushLine_stashes :
  forall (config : Config) (line : string) (st : locals) (w : World),
    match prePushLine GitInitialCommit config line st w with
    | (Done c, w') =>
        stashes (trace w') + pending (localsOf c) <= stashes (trace w) + pending st
    | (Hung, w') => stashes (trace w') <= stashes (trace w) + pending st
    end.
Proof.
  intros config line st w. unfold prePushLine.
  destruct (negb _); [cbn; lia |].
  destruct (String.eqb _ gitNilCommit); [cbn; lia |].
  unfold bind at 1.
  match goal with
  | |- context [moveTo ?t st w] =>
      pose proof (moveTo_stashes t st w) as Hm;
      destruct (moveTo t st w) as [[[e st'] |] w']
  end; [| exact Hm].
  cbn [snd] in Hm.
  destruct e as [e |]; [cbn; exact Hm |].
  unfold between, bind at 1, call.
  match goal with
  | |- context [Between ?f ?t ?i ?x] => destruct (Between f t i x) as [[chg err] r]
  end.
  cbn [fst snd].
  destruct err as [e |]; [cbn [ret localsOf]; count_stashes |].
  unfold bind.
  match goal with
  | |- context [runChecks ?c ?g ?m ?x] =>
      pose proof (runChecks_stashes c g m x) as Hr;
      destruct (runChecks c g m x) as [[[e |] |] w'']
  end; cbn [snd ret localsOf] in *; rewrite Hr; count_stashes.
Qed.

Lemma prePushLoop_stashes :
  forall (config : Config) (lines : list string) (final : error)
         (st : locals) (w : World),
    stashes (trace (snd (prePushLoop GitInitialCommit config lines final st w)))
    <= stashes (trace w) + pending st.
Proof.
  intros config lines final. induction lines as [| line lines IH]; intros st w.
  - cbn. lia.
  - cbn [prePushLoop]. unfold bind.
    pose proof (prePushLine_stashes config line st w) as Hl.
    destruct (prePushLine GitInitialCommit config line st w) as [[c |] w'];
      [| exact Hl].
    destruct c as [st' | err st']; cbn [localsOf] in Hl.
    + specialize (IH st' w'). lia.
    + cbn. lia.
Qed.

(** C9.  One run of [runPrePush] calls [Stash] at most once, whatever the
    lines on stdin, whatever the repository and the checks do, and also
    when the run never comes back. *)
Theorem runPrePush_stashes_at_most_once :
  forall (config : Config) (stdin : Reader) (w : World),
    stashes (trace (snd (runPrePush GitInitialCommit config stdin w)))
    <= stashes (trace w) + 1.
Proof.
  intros config stdin w. unfold runPrePush, ask, bind.
  match goal with
  | |- context [prePushLoop ?g ?c ?l ?f ?s w] =>
      pose proof (prePushLoop_stashes c l f s w) as Hl;
      destruct (prePushLoop g c l f s w) as [[[err st] |] w']
  end; cbn [snd fst pending triedToStash] in *; [| exact Hl].
  rewrite prePushDeferred_eq. cbn [snd trace].
  rewrite !stashes_app.
  destruct (negb _), (stashed st); cbn [stashes filter isStash List.length]; lia.
Qed.

End Properties.

(** * Properties of the rest of package main *)

(** ** strings.Split *)

Lemma splitFrom_app :
  forall (sep : ascii) (a b seen : string),
    splitFrom sep seen (a ++ String sep b)
    = splitFrom sep seen a ++ splitFrom sep EmptyString b.
Proof.
  intros sep a b. induction a as [| c a IH]; intros seen; cbn.
  - rewrite Ascii.eqb_refl. reflexivity.
  - destruct (Ascii.eqb c sep); cbn; rewrite IH; reflexivity.
Qed.

Lemma splitFrom_free :
  forall (sep : ascii) (s seen : string),
    all (fun c => negb (Ascii.eqb c sep)) s = true ->
    splitFrom sep seen s = [(seen ++ s)%string].
Proof.
  intros sep s. induction s as [| c s IH]; intros seen Hs; cbn in *.
  - assert (E : forall x : string, (x ++ EmptyString)%string = x).
    { induction x as [| d x IHx]; cbn; [reflexivity | rewrite IHx; reflexivity]. }
    rewrite E. reflexivity.
  - apply andb_true_iff in Hs. destruct Hs as [Hc Hs].
    destruct (Ascii.eqb c sep); [discriminate |].
    rewrite IH by exact Hs. rewrite append_cons_assoc. reflexivity.
Qed.

(** Joining fields that hold no separator and splitting again gives the
    fields back. *)
Lemma Split_Join :
  forall (sep : ascii) (l : list string),
    l <> [] ->
    Forall (fun s => all (fun c => negb (Ascii.eqb c sep)) s = true) l ->
    Split (Join l (String sep EmptyString)) sep = l.
Proof.
  intros sep l. induction l as [| x l IH]; intros Hne Hl; [congruence |].
  inversion Hl as [| ? ? Hx Hl']; subst.
  destruct l as [| y l].
  - cbn. unfold Split. rewrite splitFrom_free by exact Hx. reflexivity.
  - change (Join (x :: y :: l) (String sep EmptyString))
      with (x ++ String sep (Join (y :: l) (String sep EmptyString)))%string.
    unfold Split. rewrite splitFrom_app, splitFrom_free by exact Hx.
    cbn [append app]. f_equal. apply IH; [discriminate | exact Hl'].
Qed.

(** ** strconv.ParseInt and the decimal notation *)

Lemma parseDigits_acc :
  forall (d : Decimal.uint) (acc : positive),
    parseDigits (DecimalString.NilEmpty.string_of_uint d) (Z.pos acc)
    = Some (Z.pos (Pos.of_uint_acc d acc)).
Proof.
  induction d as [| d IH | d IH | d IH | d IH | d IH | d IH | d IH | d IH | d IH | d IH];
    intros acc; cbn [DecimalString.NilEmpty.string_of_uint parseDigits Pos.of_uint_acc];
    [reflexivity | ..];
    match goal with
    | |- context [digitValue ?c] =>
        let v := eval vm_compute in (digitValue c) in
        change (digitValue c) with v
    end; cbv beta iota;
    match goal with
    | |- parseDigits _ ?n = Some (Z.pos (Pos.of_uint_acc _ ?p)) =>
        replace n with (Z.pos p) by lia
    end; apply IH.
Qed.

Lemma parseDigits_uint :
  forall d : Decimal.uint,
    parseDigits (DecimalString.NilEmpty.string_of_uint d) 0
    = Some (Z.of_N (Pos.of_uint d)).
Proof.
  induction d as [| d IH | d IH | d IH | d IH | d IH | d IH | d IH | d IH | d IH | d IH];
    cbn [DecimalString.NilEmpty.string_of_uint parseDigits Pos.of_uint];
    [reflexivity | exact IH | ..];
    match goal with
    | |- context [digitValue ?c] =>
        let v := eval vm_compute in (digitValue c) in
        change (digitValue c) with v
    end; cbv beta iota;
    match goal with
    | |- parseDigits _ ?n = _ =>
        let v := eval vm_compute in n in change n with v
    end; rewrite parseDigits_acc; reflexivity.
Qed.

Lemma decimal_digits :
  forall d : Decimal.uint,
    all (fun c => negb (Ascii.eqb c ".")) (DecimalString.NilEmpty.string_of_uint d) = true.
Proof.
  induction d; cbn; [reflexivity | ..]; exact IHd.
Qed.

Lemma decimal_no_dot :
  forall z : Z, all (fun c => negb (Ascii.eqb c ".")) (decimal z) = true.
Proof.
  intros z. unfold decimal. destruct z; cbn; [reflexivity | ..]; apply decimal_digits.
Qed.

(** [ParseInt] reads the decimal notation of the numbers of 32 bits. *)
Lemma ParseInt_decimal :
  forall z : Z, (- 2 ^ 31 <= z < 2 ^ 31)%Z -> ParseInt (decimal z) 32 = Some z.
Proof.
  intros z Hz. unfold decimal. destruct z as [| p | p]; [reflexivity | |].
  - cbn [Z.to_int DecimalString.NilEmpty.string_of_int].
    pose proof (parseDigits_uint (Pos.to_uint p)) as Hd.
    rewrite DecimalPos.Unsigned.of_to in Hd.
    pose proof (DecimalPos.Unsigned.to_uint_nonnil p) as Hn.
    destruct (Pos.to_uint p) as [| d | d | d | d | d | d | d | d | d | d];
      [congruence | ..];
      cbn [DecimalString.NilEmpty.string_of_uint] in *;
      unfold ParseInt;
      match goal with
      | |- context [Ascii.eqb ?c "-"] =>
          change (Ascii.eqb c "-") with false; change (Ascii.eqb c "+") with false
      end; cbn [orb negb andb]; rewrite Hd; cbn [Z.of_N];
      change (2 ^ (32 - 1))%Z with (2 ^ 31)%Z;
      (destruct (Z.leb_spec (2 ^ 31) (Z.pos p)); [lia | reflexivity]).
  - cbn [Z.to_int DecimalString.NilEmpty.string_of_int].
    pose proof (parseDigits_uint (Pos.to_uint p)) as Hd.
    rewrite DecimalPos.Unsigned.of_to in Hd.
    pose proof (DecimalPos.Unsigned.to_uint_nonnil p) as Hn.
    unfold ParseInt. change (Ascii.eqb "-" "-") with true.
    change (Ascii.eqb "-" "+") with false. cbn [orb negb andb].
    destruct (DecimalString.NilEmpty.string_of_uint (Pos.to_uint p)) as [| c s] eqn:Es.
    + destruct (Pos.to_uint p); cbn in Es; congruence.
    + rewrite Hd. cbn [Z.of_N]. change (2 ^ (32 - 1))%Z with (2 ^ 31)%Z.
      destruct (Z.ltb_spec (2 ^ 31) (Z.pos p)); [lia | reflexivity].
Qed.

Lemma parseDigits_nonneg :
  forall (s : string) (n r : Z),
    (0 <= n)%Z -> parseDigits s n = Some r -> (0 <= r)%Z.
Proof.
  induction s as [| d s IH]; intros n r Hn; cbn.
  - intros E. inversion E; subst. exact Hn.
  - unfold digitValue.
    destruct ((48 <=? nat_of_ascii d) && (nat_of_ascii d <=? 57))%nat eqn:Hd;
      [| discriminate].
    apply andb_true_iff in Hd. destruct Hd as [H1 H2].
    apply Nat.leb_le in H1. apply IH. lia.
Qed.

Lemma ParseInt_range :
  forall (s : string) (v : Z),
    ParseInt s 32 = Some v -> (- 2 ^ 31 <= v < 2 ^ 31)%Z.
Proof.
  intros s v. unfold ParseInt. destruct s as [| c s']; [discriminate |].
  match goal with
  | |- context [match ?d with EmptyString => _ | String _ _ => _ end] =>
      destruct d as [| c0 s0] eqn:Ed; [discriminate |]
  end.
  match goal with
  | |- context [parseDigits ?d 0] =>
      destruct (parseDigits d 0) as [un |] eqn:Eu; [| discriminate]
  end.
  apply parseDigits_nonneg in Eu; [| lia].
  change (2 ^ (32 - 1))%Z with (2 ^ 31)%Z.
  destruct (Ascii.eqb c "-"); cbn [negb andb].
  - destruct (Z.ltb_spec (2 ^ 31) un); [discriminate |].
    intros E. inversion E; subst. lia.
  - destruct (Z.leb_spec (2 ^ 31) un); [discriminate |].
    intros E. inversion E; subst. lia.
Qed.

(** ** parseVersion *)

Lemma parseVersionFields_decimal :
  forall (l out : list Z),
    Forall (fun z => (- 2 ^ 31 <= z < 2 ^ 31)%Z) l ->
    parseVersionFields (map decimal l) out = Some (out ++ l).
Proof.
  induction l as [| z l IH]; intros out Hl; cbn.
  - rewrite app_nil_r. reflexivity.
  - inversion Hl as [| ? ? Hz Hl']; subst.
    rewrite ParseInt_decimal by exact Hz.
    rewrite IH by exact Hl'. rewrite <- app_assoc. reflexivity.
Qed.

(** X2.  [parseVersion] reads back every version written in decimal
    notation with dots: for a list of one number or more, each of 32
    bits, it gives the list. *)
Theorem parseVersion_decimal :
  forall l : list Z,
    l <> [] ->
    Forall (fun z => (- 2 ^ 31 <= z < 2 ^ 31)%Z) l ->
    parseVersion (Join (map decimal l) ".") = Some l.
Proof.
  intros l Hne Hl. unfold parseVersion.
  rewrite Split_Join.
  - apply (parseVersionFields_decimal l [] Hl).
  - destruct l; [congruence | discriminate].
  - apply Forall_forall. intros s Hs. apply in_map_iff in Hs.
    destruct Hs as [z [<- _]]. apply decimal_no_dot.
Qed.

Lemma parseVersionFields_shape :
  forall (fields : list string) (out res : list Z),
    parseVersionFields fields out = Some res ->
    exists more : list Z,
      res = out ++ more
      /\ List.length more = List.length fields
      /\ Forall (fun z => (- 2 ^ 31 <= z < 2 ^ 31)%Z) more.
Proof.
  induction fields as [| i fields IH]; intros out res; cbn.
  - intros E. inversion E; subst. exists []. rewrite app_nil_r. repeat split. constructor.
  - destruct (ParseInt i 32) as [v |] eqn:Ev; [| discriminate].
    intros E. apply IH in E. destruct E as [more [-> [Hlen Hall]]].
    exists (v :: more). rewrite <- app_assoc. cbn. repeat split.
    + rewrite Hlen. reflexivity.
    + constructor; [exact (ParseInt_range _ _ Ev) | exact Hall].
Qed.

Lemma splitFrom_length :
  forall (sep : ascii) (s seen : string), 1 <= List.length (splitFrom sep seen s).
Proof.
  intros sep s. induction s as [| c s IH]; intros seen; cbn; [lia |].
  destruct (Ascii.eqb c sep); cbn; [lia | apply IH].
Qed.

(** X3.  A version [parseVersion] accepts has one number per field
    between the dots, so one at least, and each fits in 32 bits: the empty
    string and a string with an empty field are refused. *)
Theorem parseVersion_shape :
  forall (v : string) (out : list Z),
    parseVersion v = Some out ->
    out <> []
    /\ List.length out = List.length (Split v ".")
    /\ Forall (fun z => (- 2 ^ 31 <= z < 2 ^ 31)%Z) out
    /\ ~ In EmptyString (Split v ".").
Proof.
  intros v out E. unfold parseVersion in E.
  assert (Hnonempty : ~ In EmptyString (Split v ".")).
  { revert E. generalize (@nil Z). induction (Split v ".") as [| i fields IH];
      intros acc E; [intros [] |].
    cbn in E. destruct (ParseInt i 32) as [x |] eqn:Ex; [| discriminate].
    intros [-> | Hin]; [discriminate | exact (IH _ E Hin)]. }
  apply parseVersionFields_shape in E. destruct E as [more [-> [Hlen Hall]]].
  cbn [app]. repeat split; [| exact Hlen | exact Hall | exact Hnonempty].
  pose proof (splitFrom_length "." v EmptyString) as H1. unfold Split in Hlen.
  destruct more; [cbn in Hlen; lia | discriminate].
Qed.

(** ** loadConfigFile: the minimum version *)

Lemma versionLoop_nil :
  forall (configVersion : list Z) (i j : nat),
    versionLoop [] i configVersion = versionLoop [] j configVersion.
Proof.
  induction configVersion as [| v rest IH]; intros i j; cbn; [reflexivity |].
  destruct (v =? 0)%Z; [apply IH | reflexivity].
Qed.

Lemma versionLoop_shift :
  forall (configVersion : list Z) (p : Z) (parsed : list Z) (i : nat),
    versionLoop (p :: parsed) (S i) configVersion = versionLoop parsed i configVersion.
Proof.
  induction configVersion as [| v rest IH]; intros p parsed i; [reflexivity |].
  cbn [versionLoop List.length nth]. change (S (List.length parsed) <=? S i)
    with (List.length parsed <=? i).
  rewrite !IH. reflexivity.
Qed.

Lemma versionLoop_nil_cons :
  forall (v : Z) (rest : list Z),
    versionLoop [] 0 (v :: rest)
    = if (v =? 0)%Z then versionLoop [] 0 rest else false.
Proof.
  intros v rest. cbn. rewrite (versionLoop_nil rest 1 0). reflexivity.
Qed.

Lemma versionLoop_cons_cons :
  forall (p v : Z) (parsed rest : list Z),
    versionLoop (p :: parsed) 0 (v :: rest)
    = if (v <? p)%Z then true
      else if (p <? v)%Z then false
      else versionLoop parsed 0 rest.
Proof.
  intros p v parsed rest. cbn [versionLoop List.length nth Nat.leb].
  rewrite versionLoop_shift. reflexivity.
Qed.

Lemma nth_nil_zero : forall i : nat, nth i (@nil Z) 0%Z = 0%Z.
Proof. destruct i; reflexivity. Qed.

(** X4.  A config whose minimum version has no negative number is
    refused exactly when, at the first place where its minimum version and
    the version of the tool differ, the config's number is the larger one;
    a number the tool's version does not have counts as 0. *)
Theorem versionLoop_refuses_iff :
  forall (configVersion parsed : list Z),
    Forall (fun v => (0 <= v)%Z) configVersion ->
    versionLoop parsed 0 configVersion = false
    <-> exists i : nat,
          i < List.length configVersion
          /\ (forall j : nat, j < i -> nth j parsed 0%Z = nth j configVersion 0%Z)
          /\ (nth i parsed 0 < nth i configVersion 0)%Z.
Proof.
  induction configVersion as [| v rest IH]; intros parsed Hpos.
  - cbn. split; [discriminate | intros [i [Hi _]]; lia].
  - inversion Hpos as [| ? ? Hv Hrest]; subst.
    destruct parsed as [| p parsed].
    + rewrite versionLoop_nil_cons.
      destruct (Z.eqb_spec v 0) as [-> | Hne].
      * rewrite (IH [] Hrest). split.
        -- intros [i [Hi [Heq Hlt]]]. exists (S i). cbn [List.length nth].
           pose proof (nth_nil_zero i) as Hz.
           split; [lia |]. split; [| congruence].
           intros [| j] Hj; [reflexivity |].
           specialize (Heq j ltac:(lia)). pose proof (nth_nil_zero j) as Hzj.
           cbn [nth]. congruence.
        -- intros [[| i] [Hi [Heq Hlt]]]; [cbn in Hlt; lia |].
           cbn [List.length nth] in Hi, Hlt.
           exists i. pose proof (nth_nil_zero i) as Hz.
           split; [lia |]. split; [| rewrite Hz; exact Hlt].
           intros j Hj. specialize (Heq (S j) ltac:(lia)). cbn [nth] in Heq.
           pose proof (nth_nil_zero j) as Hzj. congruence.
      * split; [intros _ | reflexivity].
        exists 0. cbn. split; [lia |]. split; [intros j Hj; lia | lia].
    + rewrite versionLoop_cons_cons.
      destruct (Z.ltb_spec v p) as [Hlt | Hge].
      * split; [discriminate |].
        intros [[| i] [Hi [Heq Hl]]]; [cbn in Hl; lia |].
        specialize (Heq 0 ltac:(lia)). cbn in Heq. lia.
      * destruct (Z.ltb_spec p v) as [Hlt | Hle].
        -- split; [intros _ | reflexivity].
           exists 0. cbn. split; [lia |]. split; [intros j Hj; lia | exact Hlt].
        -- assert (p = v) by lia. subst p. rewrite (IH parsed Hrest). split.
           ++ intros [i [Hi [Heq Hl]]]. exists (S i). cbn [List.length nth].
              split; [lia |]. split; [| exact Hl].
              intros [| j] Hj; [reflexivity | apply Heq; lia].
           ++ intros [[| i] [Hi [Heq Hl]]]; [cbn in Hl; lia |].
              exists i. cbn [List.length nth] in *. split; [lia |].
              split; [| exact Hl]. intros j Hj. exact (Heq (S j) ltac:(lia)).
Qed.

(** X5.  A tool accepts every config an older tool accepted: when the
    tool [older] accepts the config and the tool [newer] would accept
    [older] as a minimum version, [newer] accepts the config, as long as the
    config and [newer] have no negative number. *)
Theorem versionLoop_newer_tool :
  forall configVersion older newer : list Z,
    Forall (fun v => (0 <= v)%Z) configVersion ->
    Forall (fun v => (0 <= v)%Z) newer ->
    versionLoop older 0 configVersion = true ->
    versionLoop newer 0 older = true ->
    versionLoop newer 0 configVersion = true.
Proof.
  induction configVersion as [| x a IH]; intros b c Ha Hc Hba Hcb; [reflexivity |].
  inversion Ha as [| ? ? Hx Ha']; subst.
  destruct c as [| z c]; destruct b as [| y b].
  - exact Hba.
  - rewrite versionLoop_nil_cons in Hcb. rewrite versionLoop_cons_cons in Hba.
    rewrite versionLoop_nil_cons.
    destruct (Z.eqb_spec y 0) as [-> | Hy]; [| discriminate].
    destruct (Z.ltb_spec x 0); [lia |].
    destruct (Z.ltb_spec 0 x); [discriminate |].
    assert (x = 0%Z) by lia. subst x. cbn [Z.eqb].
    exact (IH b [] Ha' Hc Hba Hcb).
  - inversion Hc as [| ? ? Hz Hc']; subst.
    rewrite versionLoop_nil_cons in Hba. rewrite versionLoop_cons_cons.
    destruct (Z.eqb_spec x 0) as [-> | Hxn]; [| discriminate].
    destruct (Z.ltb_spec 0 z); [reflexivity |].
    destruct (Z.ltb_spec z 0); [lia |].
    exact (IH [] c Ha' Hc' Hba eq_refl).
  - inversion Hc as [| ? ? Hz Hc']; subst.
    rewrite versionLoop_cons_cons in *.
    destruct (Z.ltb_spec x y), (Z.ltb_spec y z), (Z.ltb_spec x z); try reflexivity;
      try lia;
      destruct (Z.ltb_spec y x), (Z.ltb_spec z y), (Z.ltb_spec z x);
      try discriminate; try lia.
    exact (IH b c Ha' Hc' Hba Hcb).
Qed.

Lemma versionLoop_zeros :
  forall (k : nat) (parsed : list Z),
    Forall (fun v => (0 <= v)%Z) parsed ->
    versionLoop parsed 0 (repeat 0%Z k) = true.
Proof.
  induction k as [| k IH]; intros parsed Hp; [reflexivity |].
  cbn [repeat]. destruct parsed as [| p parsed].
  - rewrite versionLoop_nil_cons. cbn [Z.eqb]. apply IH. constructor.
  - inversion Hp as [| ? ? Hp0 Hp']; subst. rewrite versionLoop_cons_cons.
    destruct (Z.ltb_spec 0 p); [reflexivity |].
    destruct (Z.ltb_spec p 0); [lia |]. apply IH. exact Hp'.
Qed.

(** X6.  Zeros at the end of the minimum version change nothing, 3.0 is
    3.0.0, as long as the version of the tool has no negative number. *)
Theorem versionLoop_trailing_zeros :
  forall (configVersion parsed : list Z) (k : nat),
    Forall (fun v => (0 <= v)%Z) parsed ->
    versionLoop parsed 0 (configVersion ++ repeat 0%Z k)
    = versionLoop parsed 0 configVersion.
Proof.
  induction configVersion as [| v rest IH]; intros parsed k Hp.
  - cbn [app]. apply versionLoop_zeros. exact Hp.
  - cbn [app]. destruct parsed as [| p parsed].
    + rewrite !versionLoop_nil_cons. destruct (v =? 0)%Z; [| reflexivity].
      apply IH. constructor.
    + inversion Hp as [| ? ? Hp0 Hp']; subst. rewrite !versionLoop_cons_cons.
      destruct (v <? p)%Z; [reflexivity |]. destruct (p <? v)%Z; [reflexivity |].
      apply IH. exact Hp'.
Qed.

(** ** loadConfig *)

Section LoadingProperties.

Variable C : Type.
Variable MinVersion : C -> string.
Variable ReadFile : string -> option string.
Variable Unmarshal : string -> option C.
Variable New : string -> C.
Variable IsAbs : string -> bool.
Variable filepathJoin : list string -> string.
Variable ScmDir : option string.
Variable Root : string.
Variable HomeDir : option string.
Variable GOOS : string.

Lemma loadConfigFile_some :
  forall (pathname : string) (config : C),
    loadConfigFile C MinVersion ReadFile Unmarshal pathname = Some config ->
    exists content : string,
      ReadFile pathname = Some content
      /\ Unmarshal content = Some config
      /\ (forall v : list Z,
             parseVersion (MinVersion config) = Some v ->
             versionLoop parsedVersion 0 v = true).
Proof.
  intros pathname config. unfold loadConfigFile, loadConfigFileFor.
  destruct (ReadFile pathname) as [content |] eqn:Er; [| discriminate].
  destruct (Unmarshal content) as [c |] eqn:Eu; [| discriminate].
  destruct (versionLoop parsedVersion 0 _) eqn:Ev; [| discriminate].
  intros E. inversion E; subst. exists content.
  split; [reflexivity |]. split; [exact Eu |].
  intros v Hv. rewrite Hv in Ev. exact Ev.
Qed.

(** X7.  A config whose minimum version cannot be read as numbers
    between dots is taken as it is: the version of the tool is not compared
    with anything. *)
Theorem loadConfigFile_unreadable_version :
  forall (pathname content : string) (config : C),
    ReadFile pathname = Some content ->
    Unmarshal content = Some config ->
    parseVersion (MinVersion config) = None ->
    loadConfigFile C MinVersion ReadFile Unmarshal pathname = Some config.
Proof.
  intros pathname content config Er Eu Ev.
  unfold loadConfigFile, loadConfigFileFor. rewrite Er, Eu, Ev. reflexivity.
Qed.

(** X8.  The config [loadConfig] returns is the default one, made by
    checks.New for the version of the tool, or it was read from the very
    file [loadConfig] names, and then the tool's version is not below a
    minimum version the config states. *)
Theorem loadConfig_sound :
  forall (path file : string) (config : C),
    loadConfig C MinVersion ReadFile Unmarshal New IsAbs filepathJoin
               ScmDir Root HomeDir GOOS path
    = (file, config) ->
    (file = "<N/A>" /\ config = New version)
    \/ exists content : string,
         ReadFile file = Some content
         /\ Unmarshal content = Some config
         /\ (forall v : list Z,
                parseVersion (MinVersion config) = Some v ->
                versionLoop parsedVersion 0 v = true).
Proof.
  intros path file config. unfold loadConfig.
  assert (Hfound :
            forall (p : string) (c : C),
              loadConfigFile C MinVersion ReadFile Unmarshal p = Some c ->
              (p, c) = (file, config) ->
              (file = "<N/A>" /\ config = New version)
              \/ exists content : string,
                   ReadFile file = Some content
                   /\ Unmarshal content = Some config
                   /\ (forall v : list Z,
                          parseVersion (MinVersion config) = Some v ->
                          versionLoop parsedVersion 0 v = true)).
  { intros p c E H. inversion H; subst. right. apply loadConfigFile_some. exact E. }
  assert (Hdefault :
            ("<N/A>", New version) = (file, config) ->
            (file = "<N/A>" /\ config = New version)
            \/ exists content : string,
                 ReadFile file = Some content
                 /\ Unmarshal content = Some config
                 /\ (forall v : list Z,
                        parseVersion (MinVersion config) = Some v ->
                        versionLoop parsedVersion 0 v = true)).
  { intros H. inversion H; subst. left. split; reflexivity. }
  destruct (IsAbs path).
  - destruct (loadConfigFile C MinVersion ReadFile Unmarshal path) eqn:E;
      [apply (Hfound _ _ E) | exact Hdefault].
  - destruct ScmDir as [scmDir |];
      [destruct (loadConfigFile C MinVersion ReadFile Unmarshal
                   (filepathJoin [scmDir; path])) eqn:E1;
       [apply (Hfound _ _ E1) |] |];
      (destruct (loadConfigFile C MinVersion ReadFile Unmarshal
                   (filepathJoin [Root; path])) eqn:E2;
       [apply (Hfound _ _ E2) |];
       destruct HomeDir as [home |]; [| exact Hdefault];
       destruct (negb (String.eqb home EmptyString)); [| exact Hdefault];
       destruct (String.eqb GOOS "windows");
       match goal with
       | |- context [loadConfigFile C MinVersion ReadFile Unmarshal ?p] =>
           destruct (loadConfigFile C MinVersion ReadFile Unmarshal p) eqn:E3;
           [apply (Hfound _ _ E3) | exact Hdefault]
       end).
Qed.

End LoadingProperties.

(** ** sort.Strings, channels and maps *)

Lemma leb_trans :
  forall a b c : string,
    String.leb a b = true -> String.leb b c = true -> String.leb a c = true.
Proof.
  induction a as [| x a IH]; intros b c; destruct b as [| y b], c as [| z c];
    try reflexivity; try discriminate.
  unfold String.leb in *. cbn [String.compare]. unfold Ascii.compare.
  destruct (N.compare_spec (N_of_ascii x) (N_of_ascii y));
    destruct (N.compare_spec (N_of_ascii y) (N_of_ascii z));
    destruct (N.compare_spec (N_of_ascii x) (N_of_ascii z));
    try reflexivity; try discriminate; try lia.
  apply IH.
Qed.

Lemma insertString_perm :
  forall (x : string) (l : list string), Permutation (insertString x l) (x :: l).
Proof.
  intros x l. induction l as [| y l IH]; cbn; [reflexivity |].
  destruct (String.leb x y); [reflexivity |].
  rewrite IH. apply perm_swap.
Qed.

Lemma sortStrings_perm :
  forall l : list string, Permutation (sortStrings l) l.
Proof.
  induction l as [| x l IH]; cbn; [reflexivity |].
  rewrite insertString_perm, IH. reflexivity.
Qed.

Lemma insertString_sorted :
  forall (x : string) (l : list string),
    StronglySorted (fun a b => String.leb a b = true) l ->
    StronglySorted (fun a b => String.leb a b = true) (insertString x l).
Proof.
  intros x l. induction l as [| y l IH]; intros Hs; cbn.
  - constructor; constructor.
  - inversion Hs as [| ? ? Hl Hy]; subst.
    destruct (String.leb x y) eqn:Exy.
    + constructor; [exact Hs |]. constructor; [exact Exy |].
      apply Forall_forall. intros z Hz.
      apply (leb_trans x y z Exy). exact (proj1 (Forall_forall _ _) Hy z Hz).
    + constructor; [apply IH; exact Hl |].
      apply Forall_forall. intros z Hz.
      apply (Permutation_in _ (insertString_perm x l)) in Hz.
      destruct Hz as [<- | Hz].
      * destruct (String.leb_total x y) as [H | H]; [congruence | exact H].
      * exact (proj1 (Forall_forall _ _) Hy z Hz).
Qed.

Lemma sortStrings_sorted :
  forall l : list string,
    StronglySorted (fun a b => String.leb a b = true) (sortStrings l).
Proof.
  induction l as [| x l IH]; cbn; [constructor | apply insertString_sorted; exact IH].
Qed.

(** Two sorted slices with the same strings are the same slice. *)
Lemma sorted_unique :
  forall l1 l2 : list string,
    StronglySorted (fun a b => String.leb a b = true) l1 ->
    StronglySorted (fun a b => String.leb a b = true) l2 ->
    Permutation l1 l2 ->
    l1 = l2.
Proof.
  induction l1 as [| x l1 IH]; intros l2 H1 H2 Hp.
  - apply Permutation_nil in Hp. congruence.
  - destruct l2 as [| y l2]; [apply Permutation_sym, Permutation_nil in Hp; discriminate |].
    inversion H1 as [| ? ? Hs1 Hx]; subst. inversion H2 as [| ? ? Hs2 Hy]; subst.
    assert (Exy : x = y).
    { assert (Hxin : In x (y :: l2)) by (apply (Permutation_in _ Hp); left; reflexivity).
      assert (Hyin : In y (x :: l1))
        by (apply (Permutation_in _ (Permutation_sym Hp)); left; reflexivity).
      destruct Hxin as [-> | Hxin]; [reflexivity |].
      destruct Hyin as [-> | Hyin]; [reflexivity |].
      apply String.leb_antisym.
      - exact (proj1 (Forall_forall _ _) Hx y Hyin).
      - exact (proj1 (Forall_forall _ _) Hy x Hxin). }
    subst y. f_equal. apply IH; [exact Hs1 | exact Hs2 |].
    exact (Permutation_cons_inv Hp).
Qed.

Lemma sortStrings_unique :
  forall l1 l2 : list string,
    Permutation l1 l2 -> sortStrings l1 = sortStrings l2.
Proof.
  intros l1 l2 Hp. apply sorted_unique; try apply sortStrings_sorted.
  rewrite !sortStrings_perm. exact Hp.
Qed.

Lemma pickFrom_none :
  forall (A : Type) (gs : list (list A)) (k : nat),
    pickFrom k gs = None -> List.concat gs = [].
Proof.
  intros A. induction gs as [| g gs IH]; intros k; [reflexivity |].
  destruct g as [| e q]; cbn [pickFrom].
  - destruct (pickFrom k gs) as [[e' gs'] |] eqn:E; [discriminate |].
    intros _. cbn. exact (IH k E).
  - destruct k as [| k']; [discriminate |].
    destruct (pickFrom k' gs) as [[e' gs'] |]; discriminate.
Qed.

Lemma pickFrom_some :
  forall (A : Type) (gs gs' : list (list A)) (k : nat) (e : A),
    pickFrom k gs = Some (e, gs') ->
    Permutation (List.concat gs) (e :: List.concat gs').
Proof.
  intros A. induction gs as [| g gs IH]; intros gs' k e; [discriminate |].
  destruct g as [| e0 q]; cbn [pickFrom].
  - destruct (pickFrom k gs) as [[e1 gs1] |] eqn:E; [| discriminate].
    intros H. inversion H; subst. cbn. exact (IH _ _ _ E).
  - destruct k as [| k'].
    + intros H. inversion H; subst. reflexivity.
    + destruct (pickFrom k' gs) as [[e1 gs1] |] eqn:E; intros H; inversion H; subst.
      * cbn [List.concat]. apply IH in E. rewrite E.
        change (e :: (e0 :: q) ++ List.concat gs1)
          with ((e :: nil) ++ (e0 :: q) ++ List.concat gs1).
        change ((e0 :: q) ++ e :: List.concat gs1)
          with ((e0 :: q) ++ (e :: nil) ++ List.concat gs1).
        rewrite !app_assoc. apply Permutation_app_tail. apply Permutation_app_comm.
      * reflexivity.
Qed.

Lemma waitFor_fits :
  forall (A : Type) (n : nat) (sched : list nat) (capacity : nat)
         (gs : list (list A)) (buf : list A),
    List.length (List.concat gs) = n ->
    List.length buf + n <= capacity ->
    exists out : list A,
      waitFor n sched capacity gs buf = Done out
      /\ Permutation out (buf ++ List.concat gs).
Proof.
  intros A. induction n as [| n IH]; intros sched capacity gs buf Hn Hc.
  - exists buf. split; [reflexivity |].
    apply length_zero_iff_nil in Hn. rewrite Hn, app_nil_r. reflexivity.
  - cbn [waitFor].
    destruct (pickFrom (hd 0 sched) gs) as [[e gs'] |] eqn:E.
    + apply pickFrom_some in E.
      assert (Hn' : List.length (List.concat gs') = n).
      { apply Permutation_length in E. cbn in E. lia. }
      assert (Hlt : (List.length buf <? capacity) = true) by (apply Nat.ltb_lt; lia).
      rewrite Hlt.
      destruct (IH (tl sched) capacity gs' (buf ++ [e]) Hn') as [out [Ew Ep]].
      { rewrite length_app. cbn. lia. }
      exists out. split; [exact Ew |].
      rewrite Ep, <- app_assoc. apply Permutation_app_head. symmetry. exact E.
    + apply pickFrom_none in E. rewrite E in Hn. discriminate.
Qed.

Lemma waitFor_overflows :
  forall (A : Type) (n : nat) (sched : list nat) (capacity : nat)
         (gs : list (list A)) (buf : list A),
    List.length (List.concat gs) = n ->
    List.length buf <= capacity ->
    capacity < List.length buf + n ->
    waitFor n sched capacity gs buf = Hung.
Proof.
  intros A. induction n as [| n IH]; intros sched capacity gs buf Hn Hb Hc; [lia |].
  cbn [waitFor].
  destruct (pickFrom (hd 0 sched) gs) as [[e gs'] |] eqn:E.
  - apply pickFrom_some in E.
    assert (Hn' : List.length (List.concat gs') = n).
    { apply Permutation_length in E. cbn in E. lia. }
    destruct (List.length buf <? capacity) eqn:Hlt; [| reflexivity].
    apply Nat.ltb_lt in Hlt.
    apply IH; [exact Hn' | rewrite length_app; cbn; lia | rewrite length_app; cbn; lia].
  - apply pickFrom_none in E. rewrite E in Hn. discriminate.
Qed.

Lemma setKey_spec :
  forall (keys : list string) (url : string),
    NoDup keys ->
    NoDup (setKey keys url)
    /\ forall u : string, In u (setKey keys url) <-> In u keys \/ u = url.
Proof.
  intros keys url Hn. unfold setKey.
  destruct (existsb (String.eqb url) keys) eqn:E.
  - split; [exact Hn |]. intros u. split; [auto |].
    intros [H | ->]; [exact H |].
    apply existsb_exists in E. destruct E as [x [Hx Ex]].
    apply String.eqb_eq in Ex. subst. exact Hx.
  - split.
    + apply NoDup_app; [exact Hn | constructor; [intros [] | constructor] |].
      intros x Hx [Ex | []]. subst x.
      assert (existsb (String.eqb url) keys = true); [| congruence].
      apply existsb_exists. exists url. split; [exact Hx | apply String.eqb_refl].
    + intros u. rewrite in_app_iff. cbn. intuition.
Qed.

Lemma fold_setKey_spec :
  forall (received keys : list string),
    NoDup keys ->
    NoDup (fold_left setKey received keys)
    /\ forall u : string,
         In u (fold_left setKey received keys) <-> In u keys \/ In u received.
Proof.
  induction received as [| url received IH]; intros keys Hn; cbn.
  - split; [exact Hn |]. intros u. intuition.
  - destruct (setKey_spec keys url Hn) as [Hn' Hin'].
    destruct (IH (setKey keys url) Hn') as [Hn'' Hin''].
    split; [exact Hn'' |]. intros u. rewrite Hin'', Hin'. intuition.
Qed.

Section CommandProperties.

Context {R change : Type} {repo : Repo R change} {runtime : Runtime R}
        {tools : Tools R change}.
Variable GitInitialCommit : Commit.
Variable Current : Commit.
Variable modeString : Mode -> string.

Let World := @World R change.
Let Config := @Config R change.
Let Check := @Check R change.

(** ** processModes *)

Lemma processFields_acc :
  forall (fields : list string) (modes : list Mode),
    processFields modeString fields modes
    = match processFields modeString fields [] with
      | inl more => inl (modes ++ more)
      | inr e => inr e
      end.
Proof.
  induction fields as [| p fields IH]; intros modes; cbn [processFields].
  - rewrite app_nil_r. reflexivity.
  - destruct (negb (String.length p =? 0)); [| apply IH].
    destruct (modesOf modeString p) as [more |]; [| reflexivity].
    rewrite (IH (modes ++ more)), (IH ([] ++ more)).
    destruct (processFields modeString fields []); [| reflexivity].
    cbn [app]. rewrite app_assoc. reflexivity.
Qed.

Lemma processFields_app :
  forall (fields1 fields2 : list string) (modes : list Mode),
    processFields modeString (fields1 ++ fields2) modes
    = match processFields modeString fields1 modes with
      | inl modes' => processFields modeString fields2 modes'
      | inr e => inr e
      end.
Proof.
  induction fields1 as [| p fields1 IH]; intros fields2 modes; [reflexivity |].
  cbn [app processFields].
  destruct (negb (String.length p =? 0)); [| apply IH].
  destruct (modesOf modeString p); [apply IH | reflexivity].
Qed.

Lemma processModes_fields :
  forall modeFlag : string,
    processModes modeString modeFlag = processFields modeString (Split modeFlag ",") [].
Proof.
  intros modeFlag. unfold processModes. destruct modeFlag; reflexivity.
Qed.

(** X9.  The modes of two flags joined by a comma are the modes of the
    first followed by the modes of the second; when one of them is refused
    the whole is refused, with the error of the first one that is. *)
Theorem processModes_comma :
  forall a b : string,
    processModes modeString (a ++ "," ++ b)
    = match processModes modeString a, processModes modeString b with
      | inl modesA, inl modesB => inl (modesA ++ modesB)
      | inr e, _ => inr e
      | inl _, inr e => inr e
      end.
Proof.
  intros a b. rewrite !processModes_fields.
  change (a ++ "," ++ b)%string with (a ++ String "," b)%string.
  unfold Split. rewrite splitFrom_app, processFields_app.
  fold (Split a ","). fold (Split b ",").
  destruct (processFields modeString (Split a ",") []) as [modesA | e]; [| reflexivity].
  rewrite processFields_acc.
  destruct (processFields modeString (Split b ",") []); reflexivity.
Qed.

Lemma processFields_error :
  forall (fields : list string) (modes : list Mode) (e : cmdError),
    processFields modeString fields modes = inr e ->
    exists (before : list string) (p : string) (after : list string),
      fields = before ++ p :: after
      /\ e = ErrInvalidMode p
      /\ p <> EmptyString
      /\ modesOf modeString p = None
      /\ Forall (fun q => q = EmptyString \/ modesOf modeString q <> None) before.
Proof.
  induction fields as [| p fields IH]; intros modes e; cbn [processFields];
    [discriminate |].
  destruct p as [| c p'] eqn:Ep.
  - cbn. intros H. apply IH in H.
    destruct H as [before [q [after [-> [He [Hq [Hm Hb]]]]]]].
    exists (EmptyString :: before), q, after. repeat split; try assumption.
    constructor; [left; reflexivity | exact Hb].
  - cbn [String.length Nat.eqb negb].
    destruct (modesOf modeString (String c p')) as [more |] eqn:Em.
    + intros H. apply IH in H.
      destruct H as [before [q [after [-> [He [Hq [Hm Hb]]]]]]].
      exists (String c p' :: before), q, after. repeat split; try assumption.
      constructor; [right; congruence | exact Hb].
    + intros H. inversion H; subst.
      exists [], (String c p'), fields. repeat split; try assumption;
        [discriminate | constructor].
Qed.

(** X10.  When [processModes] refuses a flag, the error names the first
    field between the commas that is neither empty nor a mode. *)
Theorem processModes_error :
  forall (modeFlag : string) (e : cmdError),
    processModes modeString modeFlag = inr e ->
    exists (before : list string) (p : string) (after : list string),
      Split modeFlag "," = before ++ p :: after
      /\ e = ErrInvalidMode p
      /\ p <> EmptyString
      /\ modesOf modeString p = None
      /\ Forall (fun q => q = EmptyString \/ modesOf modeString q <> None) before.
Proof.
  intros modeFlag e. rewrite processModes_fields. apply processFields_error.
Qed.

(** ** cmdInstallPrereq *)

Lemma missing_concat_nodup :
  forall (enabledChecks : list Check) (r : R) (sched order : list nat)
         (received : list string),
    Permutation received (List.concat (missing enabledChecks r)) ->
    let m := fold_left setKey received [] in
    sortStrings (rangeKeys (List.length m) order m) = missingUrls enabledChecks r.
Proof.
  intros enabledChecks r sched order received Hp m. unfold missingUrls.
  apply sortStrings_unique. rewrite rangeKeys_perm by reflexivity.
  destruct (fold_setKey_spec received [] (NoDup_nil _)) as [Hn Hin].
  apply NoDup_Permutation; [exact Hn | apply NoDup_nodup |].
  intros u. fold m in Hin. rewrite Hin, nodup_In. split.
  - intros [[] | H]. exact (Permutation_in _ Hp H).
  - intros H. right. exact (Permutation_in _ (Permutation_sym Hp) H).
Qed.

(** [cmdInstallPrereq] in one piece, when the urls of the missing
    prerequisites fit in the channel [c]. *)
Lemma cmdInstallPrereq_fits :
  forall (config : Config) (modes : list Mode) (noUpdate : bool) (w : World),
    let enabledChecks := fst (EnabledChecks config modes) in
    List.length (List.concat (missing enabledChecks (env w)))
    <= List.length enabledChecks ->
    cmdInstallPrereq config modes noUpdate w
    = let urls := missingUrls enabledChecks (env w) in
      if negb (List.length urls =? 0)
      then
        if noUpdate
        then (Done (Some (ErrPrereqMissing urls)), w)
        else
          let '((out, err), r) := Capture ("go" :: "get" :: urls) (env w) in
          (Done (if negb (String.length out =? 0)
                 then Some (ErrInstallOutput out)
                 else
                   match err with
                   | Some e => Some (ErrInstallFailed e)
                   | None => None
                   end),
           {| env := r; trace := trace w |})
      else (Done None, w).
Proof.
  intros config modes noUpdate w enabledChecks Hfit.
  unfold cmdInstallPrereq. fold enabledChecks. unfold bind, ask.
  destruct (waitFor_fits string
              (List.length (List.concat (missing enabledChecks (env w))))
              (schedule (env w)) (List.length enabledChecks)
              (missing enabledChecks (env w)) [] eq_refl Hfit)
    as [received [Ew Ep]].
  rewrite Ew. cbn [app] in Ep.
  rewrite (missing_concat_nodup enabledChecks (env w) (schedule (env w))
             (rangeOrder (env w)) received Ep).
  cbv zeta. destruct (negb (List.length (missingUrls enabledChecks (env w)) =? 0));
    [| reflexivity].
  destruct noUpdate; reflexivity.
Qed.

(** X11.  When more prerequisites are missing than there are enabled
    checks, their urls do not fit in the channel, [cmdInstallPrereq] never
    returns, and nothing is installed. *)
Theorem cmdInstallPrereq_blocks :
  forall (config : Config) (modes : list Mode) (noUpdate : bool) (w : World),
    List.length (fst (EnabledChecks config modes))
    < List.length (List.concat (missing (fst (EnabledChecks config modes)) (env w))) ->
    cmdInstallPrereq config modes noUpdate w = (Hung, w).
Proof.
  intros config modes noUpdate w Hover.
  unfold cmdInstallPrereq, bind, ask.
  rewrite waitFor_overflows; [reflexivity | reflexivity | cbn; lia | cbn; exact Hover].
Qed.

(** X12.  With -n, [cmdInstallPrereq] installs nothing and leaves the
    world as it is: it returns nil when no prerequisite is missing, and else
    an error with the urls of the missing ones, each once and in increasing
    order, whatever the order in which the goroutines and the map gave
    them. *)
Theorem cmdInstallPrereq_no_update :
  forall (config : Config) (modes : list Mode) (w : World),
    let enabledChecks := fst (EnabledChecks config modes) in
    List.length (List.concat (missing enabledChecks (env w)))
    <= List.length enabledChecks ->
    exists urls : list string,
      StronglySorted (fun a b => String.leb a b = true) urls
      /\ NoDup urls
      /\ (forall u : string,
             In u urls
             <-> exists (check : Check) (prereq : CheckPrerequisite R),
                   In check enabledChecks
                   /\ In prereq (GetPrerequisites check)
                   /\ IsPresent prereq (env w) = false
                   /\ URL prereq = u)
      /\ cmdInstallPrereq config modes true w
         = (Done (match urls with
                  | [] => None
                  | _ :: _ => Some (ErrPrereqMissing urls)
                  end),
            w).
Proof.
  intros config modes w enabledChecks Hfit.
  exists (missingUrls enabledChecks (env w)). repeat split.
  - apply sortStrings_sorted.
  - unfold missingUrls.
    apply (Permutation_NoDup (Permutation_sym (sortStrings_perm _))).
    apply NoDup_nodup.
  - unfold missingUrls. intros Hu.
    apply (Permutation_in _ (sortStrings_perm _)) in Hu. apply nodup_In in Hu.
    apply in_concat in Hu. destruct Hu as [q [Hq Hu]].
    unfold missing in Hq. apply in_flat_map in Hq. destruct Hq as [check [Hc Hq]].
    apply in_map_iff in Hq. destruct Hq as [prereq [<- Hp]].
    exists check, prereq.
    destruct (IsPresent prereq (env w)); [destruct Hu |].
    destruct Hu as [<- | []]. repeat split; assumption.
  - intros [check [prereq [Hc [Hp [Hm <-]]]]]. unfold missingUrls.
    apply (Permutation_in _ (Permutation_sym (sortStrings_perm _))).
    apply nodup_In. apply in_concat. exists [URL prereq]. split; [| left; reflexivity].
    unfold missing. apply in_flat_map. exists check. split; [exact Hc |].
    apply in_map_iff. exists prereq. rewrite Hm. split; [reflexivity | exact Hp].
  - rewrite (cmdInstallPrereq_fits config modes true w Hfit). cbv zeta.
    fold enabledChecks. destruct (missingUrls enabledChecks (env w)); reflexivity.
Qed.

(** X13.  Without -n, with a prerequisite missing and no more urls to
    send than the channel holds (as many as there are enabled checks), go
    get is run once, on the urls of the missing prerequisites, and
    [cmdInstallPrereq] returns nil exactly when go get printed nothing and
    returned no error: any output counts as a failure. *)
Theorem cmdInstallPrereq_installs :
  forall (config : Config) (modes : list Mode) (w : World)
         (out : string) (err : option error) (r : R),
    let enabledChecks := fst (EnabledChecks config modes) in
    let urls := missingUrls enabledChecks (env w) in
    List.length (List.concat (missing enabledChecks (env w)))
    <= List.length enabledChecks ->
    urls <> [] ->
    Capture ("go" :: "get" :: urls) (env w) = ((out, err), r) ->
    exists result : option cmdError,
      cmdInstallPrereq config modes false w
      = (Done result, {| env := r; trace := trace w |})
      /\ (result = None <-> out = EmptyString /\ err = None).
Proof.
  intros config modes w out err r enabledChecks urls Hfit Hne Ec.
  rewrite (cmdInstallPrereq_fits config modes false w Hfit). cbv zeta.
  fold enabledChecks. fold urls.
  destruct urls as [| u urls'] eqn:Eu; [congruence |].
  cbn [List.length Nat.eqb negb]. rewrite Ec.
  eexists. split; [reflexivity |].
  destruct out as [| c out']; cbn [String.length Nat.eqb negb].
  - destruct err; split; intros H; try discriminate; try (split; reflexivity);
      try reflexivity.
    destruct H as [_ H]. discriminate.
  - split; [discriminate | intros [H _]; discriminate].
Qed.

Lemma cmdInstallPrereq_trace :
  forall (config : Config) (modes : list Mode) (noUpdate : bool) (w : World),
    trace (snd (cmdInstallPrereq config modes noUpdate w)) = trace w.
Proof.
  intros config modes noUpdate w. unfold cmdInstallPrereq, bind, ask, ret.
  match goal with
  | |- context [waitFor ?n ?s ?c ?g ?b] => destruct (waitFor n s c g b) as [received |]
  end; [| reflexivity].
  destruct (negb _); [| reflexivity].
  destruct noUpdate; [reflexivity |].
  destruct (Capture _ (env w)) as [[out err] r]. reflexivity.
Qed.

(** ** cmdRun and cmdRunHook *)

Lemma mutations_app :
  forall tr1 tr2 : list (@Event change),
    mutations (tr1 ++ tr2) = mutations tr1 ++ mutations tr2.
Proof. intros. unfold mutations. apply filter_app. Qed.

Lemma runChecks_mutations :
  forall (config : Config) (chg : option change) (modes : list Mode) (w : World),
    mutations (trace (snd (runChecks config chg modes w))) = mutations (trace w).
Proof.
  intros. rewrite runChecks_eq. cbv zeta.
  assert (Hruns : forall cs : list Check,
             mutations (map (fun c => EvRun (GetName c) chg) cs) = []).
  { induction cs as [| c cs IH]; [reflexivity | exact IH]. }
  assert (Hprints : forall buf : list error, mutations (map (@EvPrint change) buf) = []).
  { induction buf as [| e buf IH]; [reflexivity | exact IH]. }
  match goal with |- context [wait ?n ?s ?c ?g ?b] => destruct (wait n s c g b) as [buf |] end;
    cbn [snd trace]; rewrite !mutations_app, ?Hruns, ?Hprints, ?app_nil_r; reflexivity.
Qed.

(** X14.  [cmdRun] never stashes, checks out or restores: whatever it
    returns, and also when the checks never return, the working tree is
    left alone. *)
Theorem cmdRun_leaves_tree :
  forall (config : Config) (modes : list Mode) (allFiles : bool) (w : World),
    mutations (trace (snd (cmdRun GitInitialCommit Current config modes allFiles w)))
    = mutations (trace w).
Proof.
  intros config modes allFiles w. unfold cmdRun.
  assert (Hrest :
            forall (old : Commit) (w0 : World),
              mutations (trace w0) = mutations (trace w) ->
              mutations
                (trace
                   (snd ((b <- between Current old (IgnorePatterns config) ;;
                          let (chg, err) := b in
                          match err with
                          | Some _ => ret (core err)
                          | None => err <- runChecks config chg modes ;; ret (core err)
                          end) w0)))
              = mutations (trace w)).
  { intros old w0 H0. unfold between, bind at 1, call.
    destruct (Between Current old (IgnorePatterns config) (env w0)) as [[chg err] r].
    cbn [fst snd]. destruct err as [e |].
    - cbn -[mutations]. rewrite mutations_app, H0. cbn. apply app_nil_r.
    - unfold bind.
      match goal with
      | |- context [runChecks ?c ?g ?m ?x] =>
          pose proof (runChecks_mutations c g m x) as Hr;
          destruct (runChecks c g m x) as [[e |] w']
      end; cbn [snd ret] in *; rewrite Hr; cbn [trace];
        rewrite mutations_app, H0; cbn; apply app_nil_r. }
  destruct allFiles; cbn [negb]; unfold bind at 1, ask, ret.
  - apply Hrest. reflexivity.
  - destruct (Upstream (env w)) as [old err]. destruct err as [e |].
    + reflexivity.
    + apply Hrest. reflexivity.
Qed.

(** X15.  The continuous-integration hook never stashes, checks out or
    restores either, whatever it returns and also when it never returns. *)
Theorem cmdRunHook_ci_leaves_tree :
  forall (config : Config) (mode : string) (noUpdate : bool) (stdin : Reader) (w : World),
    mode <> modeString PreCommit ->
    mode <> modeString PrePush ->
    mode = modeString ContinuousIntegration ->
    mutations
      (trace (snd (cmdRunHook GitInitialCommit Current modeString config mode
                     noUpdate stdin w)))
    = mutations (trace w).
Proof.
  intros config mode noUpdate stdin w Hpc Hpp Hci.
  unfold cmdRunHook.
  rewrite (proj2 (String.eqb_neq _ _) Hpc), (proj2 (String.eqb_neq _ _) Hpp).
  rewrite (proj2 (String.eqb_eq _ _) Hci).
  cbv zeta. unfold between, bind at 1, call.
  destruct (Between Current GitInitialCommit (IgnorePatterns config) (env w))
    as [[chg err] r].
  cbn [fst snd]. destruct err as [e |].
  - cbn -[mutations]. rewrite mutations_app. cbn. apply app_nil_r.
  - unfold bind at 1.
    match goal with
    | |- context [cmdInstallPrereq ?c ?m ?n ?x] =>
        pose proof (cmdInstallPrereq_trace c m n x) as Ht;
        destruct (cmdInstallPrereq c m n x) as [[[e |] |] w1]
    end; cbn [snd trace] in Ht.
    + cbn -[mutations]. rewrite Ht, mutations_app. cbn. apply app_nil_r.
    + unfold bind.
      match goal with
      | |- context [runChecks ?c ?g ?m ?x] =>
          pose proof (runChecks_mutations c g m x) as Hr;
          destruct (runChecks c g m x) as [[e |] w2]
      end; cbn [snd ret] in *; rewrite Hr, Ht, mutations_app; cbn; apply app_nil_r.
    + cbn -[mutations]. rewrite Ht, mutations_app. cbn. apply app_nil_r.
Qed.

(** X16.  On the continuous-integration hook with -n, when a prerequisite
    of the enabled checks is missing (and the urls fit in the channel), no
    check is run and nothing is installed: the hook returns the error that
    lists the missing urls. *)
Theorem cmdRunHook_ci_missing_prerequisite :
  forall (config : Config) (mode : string) (stdin : Reader) (w : World)
         (chg : option change) (r : R),
    mode <> modeString PreCommit ->
    mode <> modeString PrePush ->
    mode = modeString ContinuousIntegration ->
    Between Current GitInitialCommit (IgnorePatterns config) (env w) = ((chg, None), r) ->
    let enabledChecks := fst (EnabledChecks config [ContinuousIntegration]) in
    List.length (List.concat (missing enabledChecks r)) <= List.length enabledChecks ->
    missingUrls enabledChecks r <> [] ->
    cmdRunHook GitInitialCommit Current modeString config mode true stdin w
    = (Done (Some (ErrPrereqMissing (missingUrls enabledChecks r))),
       {| env := r;
          trace := trace w
                   ++ [EvBetween Current GitInitialCommit (IgnorePatterns config) chg None] |}).
Proof.
  intros config mode stdin w chg r Hpc Hpp Hci Eb enabledChecks Hfit Hne.
  unfold cmdRunHook.
  rewrite (proj2 (String.eqb_neq _ _) Hpc), (proj2 (String.eqb_neq _ _) Hpp).
  rewrite (proj2 (String.eqb_eq _ _) Hci).
  cbv zeta. unfold between. erewrite bind_done; [| apply call_eq; exact Eb].
  cbn [fst snd]. unfold bind at 1.
  rewrite cmdInstallPrereq_fits by exact Hfit. cbv zeta. cbn [env].
  fold enabledChecks.
  destruct (missingUrls enabledChecks r) as [| u urls]; [congruence |].
  reflexivity.
Qed.

End CommandProperties.

(** ** rePrePush on the lines git writes *)

Lemma take_app :
  forall (n : nat) (g rest : string),
    String.length g = n -> take n (g ++ rest) = Some (g, rest).
Proof.
  intros n g rest <-. revert rest.
  induction g as [| c g IH]; intros rest; cbn; [reflexivity |].
  rewrite IH. reflexivity.
Qed.

(** A lazy group followed by a space stops at the first space. *)
Lemma lazyPlus_word :
  forall (k : string -> option (list string)) (g seen rest : string) (gs : list string),
    g <> EmptyString ->
    all word g = true ->
    (forall (c : ascii) (s : string), c <> " "%char -> k (String c s) = None) ->
    k (String " " rest) = Some gs ->
    lazyPlus dot k seen (g ++ String " " rest) = Some ((seen ++ g)%string :: gs).
Proof.
  intros k g. induction g as [| c g IH]; intros seen rest gs Hne Hall Hk Hrest;
    [congruence |].
  cbn [all] in Hall. apply andb_true_iff in Hall. destruct Hall as [Hc Hall].
  unfold word in Hc. apply andb_true_iff in Hc. destruct Hc as [Hdot Hsp].
  cbn [append lazyPlus]. rewrite Hdot.
  destruct g as [| d g'].
  - cbn [append]. rewrite Hrest. reflexivity.
  - assert (Hd : d <> " "%char).
    { cbn [all] in Hall. apply andb_true_iff in Hall. destruct Hall as [Hd _].
      unfold word in Hd. apply andb_true_iff in Hd. destruct Hd as [_ Hd].
      intros ->. rewrite Ascii.eqb_refl in Hd. discriminate. }
    change ((String d g' ++ String " " rest)%string)
      with (String d (g' ++ String " " rest)%string) at 1.
    rewrite (Hk d _ Hd).
    rewrite (IH (seen ++ String c EmptyString)%string rest gs);
      [| discriminate | exact Hall | exact Hk | exact Hrest].
    rewrite append_cons_assoc. reflexivity.
Qed.

(** X17.  On a line made of a ref, a sha of forty characters of [0-9a-f],
    a ref and such a sha, with single spaces between them and no space or
    newline in the refs, [rePrePush] matches and its four groups are the
    four fields. *)
Theorem rePrePush_parses :
  forall localRef localSha remoteRef remoteSha : string,
    localRef <> EmptyString -> all word localRef = true ->
    String.length localSha = 40 -> all hex localSha = true ->
    remoteRef <> EmptyString -> all word remoteRef = true ->
    String.length remoteSha = 40 -> all hex remoteSha = true ->
    let line :=
      (localRef ++ " " ++ localSha ++ " " ++ remoteRef ++ " " ++ remoteSha)%string in
    FindStringSubmatch rePrePush line
    = [line; localRef; localSha; remoteRef; remoteSha].
Proof.
  intros g1 g2 g3 g4 Hn1 Hw1 Hl2 Hh2 Hn3 Hw3 Hl4 Hh4 line.
  unfold FindStringSubmatch.
  assert (Hlit : forall (rest : list atom) (c : ascii) (s : string),
             c <> " "%char -> matchAtoms (Lit " " :: rest) (String c s) = None).
  { intros rest c s Hc. cbn [matchAtoms].
    destruct (Ascii.eqb_spec " " c) as [E |]; [congruence | reflexivity]. }
  assert (Hnil : forall x : string, (x ++ EmptyString)%string = x).
  { induction x as [| c x IHx]; cbn; [reflexivity | rewrite IHx; reflexivity]. }
  assert (E4 : matchAtoms [Lit " "; Repeat 40 hex] (String " " g4) = Some [g4]).
  { cbn [matchAtoms]. rewrite Ascii.eqb_refl.
    rewrite <- (Hnil g4) at 1. rewrite (take_app 40 g4 EmptyString Hl4), Hh4.
    reflexivity. }
  assert (E3 : matchAtoms [LazyPlus dot; Lit " "; Repeat 40 hex]
                 (g3 ++ String " " g4) = Some [g3; g4]).
  { cbn [matchAtoms].
    apply (lazyPlus_word (matchAtoms [Lit " "; Repeat 40 hex]) g3 EmptyString g4 [g4]);
      [exact Hn3 | exact Hw3 | apply Hlit | exact E4]. }
  assert (E2 : matchAtoms [Lit " "; Repeat 40 hex; Lit " "; LazyPlus dot; Lit " "; Repeat 40 hex]
                 (String " " (g2 ++ String " " (g3 ++ String " " g4)))
               = Some [g2; g3; g4]).
  { cbn [matchAtoms]. rewrite Ascii.eqb_refl. rewrite (take_app 40 g2 _ Hl2), Hh2.
    cbv beta iota. rewrite Ascii.eqb_refl. cbn [matchAtoms] in E3. rewrite E3.
    reflexivity. }
  unfold line. cbn [append].
  change (matchAtoms rePrePush)
    with (lazyPlus dot
            (matchAtoms [Lit " "; Repeat 40 hex; Lit " "; LazyPlus dot; Lit " "; Repeat 40 hex])
            EmptyString).
  rewrite (lazyPlus_word _ g1 EmptyString _ [g2; g3; g4] Hn1 Hw1 (Hlit _) E2).
  reflexivity.
Qed.

Section HookProperties.

Context {R change : Type} {repo : Repo R change} {runtime : Runtime R}.
Variable GitInitialCommit : Commit.
Variable Current : Commit.

Let World := @World R change.
Let Config := @Config R change.
Let Check := @Check R change.

(** ** runChecks *)

(** [runChecks] adds runs and prints to the trace and nothing else. *)
Lemma runChecks_filter :
  forall (p : @Event change -> bool),
    (forall name arg, p (EvRun name arg) = false) ->
    (forall e, p (EvPrint e) = false) ->
    forall (config : Config) (chg : option change) (modes : list Mode) (w : World),
      filter p (trace (snd (runChecks config chg modes w))) = filter p (trace w).
Proof.
  intros p Hrun Hprint config chg modes w. rewrite runChecks_eq. cbv zeta.
  assert (Hruns : forall cs : list Check,
             filter p (map (fun c => EvRun (GetName c) chg) cs) = []).
  { induction cs as [| c cs IH]; [reflexivity |]. cbn. rewrite Hrun. exact IH. }
  assert (Hprints : forall buf : list error, filter p (map (@EvPrint change) buf) = []).
  { induction buf as [| e buf IH]; [reflexivity |]. cbn. rewrite Hprint. exact IH. }
  match goal with |- context [wait ?n ?s ?c ?g ?b] => destruct (wait n s c g b) as [buf |] end;
    cbn [snd trace]; rewrite !filter_app, ?Hruns, ?Hprints, ?app_nil_r; reflexivity.
Qed.

(** X18.  [runChecks] returns exactly when the errors the checks have to
    send, one for a check that failed and one for a check that took too
    long, are no more than there are enabled checks. *)
Theorem runChecks_returns_iff :
  forall (config : Config) (chg : option change) (modes : list Mode) (w : World),
    (exists (result : option error) (w' : World),
        runChecks config chg modes w = (Done result, w'))
    <-> List.length (List.concat (toSend config chg modes (env w)))
        <= List.length (fst (EnabledChecks config modes)).
Proof.
  intros config chg modes w. split.
  - intros [result [w' E]].
    destruct (Nat.le_gt_cases
                (List.length (List.concat (toSend config chg modes (env w))))
                (List.length (fst (EnabledChecks config modes)))) as [Hle | Hgt];
      [exact Hle |].
    rewrite (runChecks_overflows config chg modes w Hgt) in E. discriminate.
  - intros Hfit. destruct (runChecks_fits config chg modes w Hfit) as [buf [_ E]].
    rewrite E. eexists. eexists. reflexivity.
Qed.

(** ** runPreCommit *)

(** X19.  [runPreCommit] calls [Stash] first and never checks anything
    out; when it returns it has called [Restore], once and last, exactly
    when [Stash] reported that it stashed something and returned no error;
    when the checks never return, [Restore] is not called. *)
Theorem runPreCommit_mutations :
  forall (config : Config) (w : World),
    let s := fst (Stash (env w)) in
    match runPreCommit Current config w with
    | (Done _, w') =>
        exists tl : list Event,
          mutations (trace w') = mutations (trace w) ++ EvStash (fst s) (snd s) :: tl
          /\ (if fst s then
                match snd s with
                | None => exists rerr, tl = [EvRestore rerr]
                | Some _ => tl = []
                end
              else tl = [])
    | (Hung, w') =>
        mutations (trace w') = mutations (trace w) ++ [EvStash (fst s) (snd s)]
    end.
Proof.
  intros config w s. subst s. unfold runPreCommit, stash, bind at 1, call.
  destruct (Stash (env w)) as [[b e] r1]. cbn [fst snd].
  destruct e as [e |].
  - cbn [ret trace]. exists []. rewrite mutations_app. split; [reflexivity |].
    destruct b; reflexivity.
  - unfold ask at 1. unfold bind at 1. cbn [env trace].
    unfold between, bind at 1, call. cbn [env trace].
    destruct (Between Current (HEAD r1) (IgnorePatterns config) r1) as [[chg berr] r2].
    cbn [fst snd]. unfold bind at 1.
    assert (Hb : mutations
                   ((trace w ++ [EvStash b None])
                    ++ [EvBetween Current (HEAD r1) (IgnorePatterns config) chg berr])
                 = mutations (trace w) ++ [EvStash b None]).
    { rewrite !mutations_app. cbn. rewrite app_nil_r. reflexivity. }
    match goal with
    | |- context [match ?m ?x with pair _ _ => _ end] =>
        assert (Hm : mutations (trace (snd (m x))) = mutations (trace w) ++ [EvStash b None]);
        [| destruct (m x) as [[primary |] w3] ]
    end.
    { destruct chg as [c |]; [| exact Hb].
      unfold mutations. rewrite runChecks_filter; [exact Hb | reflexivity | reflexivity]. }
    + cbn [snd] in Hm. destruct b.
      * unfold restore, bind, call. destruct (Restore (env w3)) as [rerr r4].
        cbn [fst snd ret trace]. exists [EvRestore rerr].
        rewrite mutations_app, Hm. cbn. rewrite <- app_assoc.
        split; [reflexivity | exists rerr; reflexivity].
      * cbn [ret]. exists []. rewrite Hm. split; reflexivity.
    + exact Hm.
Qed.

(** ** runPrePush *)

Lemma linesFrom_tail :
  forall (tail seen : string), all dot tail = true -> linesFrom seen tail = [].
Proof.
  induction tail as [| c tail IH]; intros seen Hall; [reflexivity |].
  cbn [all] in Hall. apply andb_true_iff in Hall. destruct Hall as [Hc Hall].
  cbn [linesFrom]. unfold dot in Hc. apply negb_true_iff in Hc. rewrite Hc.
  apply IH. exact Hall.
Qed.

Lemma linesFrom_app :
  forall (s seen tail : string),
    all dot tail = true -> linesFrom seen (s ++ tail) = linesFrom seen s.
Proof.
  induction s as [| c s IH]; intros seen tail Hall.
  - cbn [append]. rewrite linesFrom_tail by exact Hall. reflexivity.
  - cbn [append linesFrom]. rewrite !IH by exact Hall. reflexivity.
Qed.

(** X20.  What stdin holds after its last newline is never looked at:
    [runPrePush] does the same with and without it. *)
Theorem runPrePush_unterminated_line :
  forall (config : Config) (stdin : Reader) (tail : string) (w : World),
    all dot tail = true ->
    runPrePush GitInitialCommit config
      {| unread := unread stdin ++ tail; readErr := readErr stdin |} w
    = runPrePush GitInitialCommit config stdin w.
Proof.
  intros config stdin tail w Hall. unfold runPrePush, readLines. cbn [unread readErr].
  rewrite linesFrom_app by exact Hall. reflexivity.
Qed.

(** X21.  When the first line on stdin does not match [rePrePush],
    [runPrePush] returns the error that quotes it; it has read no other
    line and has not touched the repository. *)
Theorem runPrePush_malformed_first_line :
  forall (config : Config) (stdin : Reader) (line : string) (rest : list string)
         (w : World),
    readLines stdin = line :: rest ->
    List.length (FindStringSubmatch rePrePush (dropLast line)) <> 5 ->
    runPrePush GitInitialCommit config stdin w
    = (Done (Some (ErrUnexpectedStdin line)), w).
Proof.
  intros config stdin line rest w Hlines Hlen.
  unfold runPrePush, ask. unfold bind at 1 2. cbv beta iota.
  rewrite Hlines. cbn [prePushLoop].
  erewrite bind_done;
    [| erewrite bind_done; [| apply prePushLine_malformed; exact Hlen]; reflexivity].
  cbn [fst snd]. unfold prePushDeferred. cbn [curr stashed].
  rewrite String.eqb_refl. reflexivity.
Qed.

(** *** The calls to Restore *)

Ltac count_held :=
  cbn [env trace fst snd localsOf triedToStash stashed curr];
  unfold restores, held; rewrite ?filter_app, ?length_app;
  cbn [filter isRestore isHeld List.length b2n].

Lemma moveTo_held :
  forall (to : Commit) (st : locals) (w : World),
    (stashed st = true -> triedToStash st = true) ->
    match moveTo to st w with
    | (Done r, w') =>
        restores (trace w') = restores (trace w)
        /\ held (trace w') + b2n (stashed st) = held (trace w) + b2n (stashed (snd r))
        /\ (stashed (snd r) = true -> triedToStash (snd r) = true)
    | (Hung, w') => restores (trace w') = restores (trace w)
    end.
Proof.
  intros to st w Hinv. unfold moveTo.
  destruct (String.eqb to (curr st)); [cbn; auto |].
  destruct (triedToStash st) eqn:T.
  - unfold bind, ret, checkout, call.
    destruct (Checkout to (env w)) as [e r]. count_held.
    repeat split; [lia | lia | intros _; exact T].
  - assert (Hs : stashed st = false).
    { destruct (stashed st); [specialize (Hinv eq_refl); discriminate | reflexivity]. }
    unfold bind, ret, stash, checkout, call.
    destruct (Stash (env w)) as [[b e] r]. cbn [fst snd env trace].
    destruct e as [e |].
    + count_held. rewrite Hs. destruct b; cbn; repeat split; lia.
    + cbn [env trace]. destruct (Checkout to r) as [e r']. count_held.
      rewrite Hs. destruct b; cbn; repeat split; lia.
Qed.

Lemma prePushLine_held :
  forall (config : Config) (line : string) (st : locals) (w : World),
    (stashed st = true -> triedToStash st = true) ->
    match prePushLine GitInitialCommit config line st w with
    | (Done c, w') =>
        restores (trace w') = restores (trace w)
        /\ held (trace w') + b2n (stashed st) = held (trace w) + b2n (stashed (localsOf c))
        /\ (stashed (localsOf c) = true -> triedToStash (localsOf c) = true)
    | (Hung, w') => restores (trace w') = restores (trace w)
    end.
Proof.
  intros config line st w Hinv. unfold prePushLine.
  destruct (negb _); [cbn; auto |].
  destruct (String.eqb _ gitNilCommit); [cbn; auto |].
  unfold bind at 1.
  match goal with
  | |- context [moveTo ?t st w] =>
      pose proof (moveTo_held t st w Hinv) as Hm;
      destruct (moveTo t st w) as [[[e st'] |] w']
  end; [| exact Hm].
  cbn [snd] in Hm. destruct Hm as [Hr [Hh Hi]].
  destruct e as [e |]; [cbn; auto |].
  unfold between, bind at 1, call.
  match goal with
  | |- context [Between ?f ?t ?i ?x] => destruct (Between f t i x) as [[chg err] r]
  end.
  cbn [fst snd].
  assert (Hr' : restores (trace w' ++ [EvBetween
             (if String.eqb (nth 4 (FindStringSubmatch rePrePush (dropLast line)) EmptyString)
                            gitNilCommit
              then GitInitialCommit
              else nth 4 (FindStringSubmatch rePrePush (dropLast line)) EmptyString)
             (nth 2 (FindStringSubmatch rePrePush (dropLast line)) EmptyString)
             (IgnorePatterns config) chg err]) = restores (trace w)).
  { rewrite <- Hr. count_held. lia. }
  assert (Hh' : held (trace w' ++ [EvBetween
             (if String.eqb (nth 4 (FindStringSubmatch rePrePush (dropLast line)) EmptyString)
                            gitNilCommit
              then GitInitialCommit
              else nth 4 (FindStringSubmatch rePrePush (dropLast line)) EmptyString)
             (nth 2 (FindStringSubmatch rePrePush (dropLast line)) EmptyString)
             (IgnorePatterns config) chg err]) = held (trace w')).
  { count_held. lia. }
  destruct err as [e |].
  - cbn [ret localsOf trace]. rewrite Hr', Hh'. auto.
  - unfold bind.
    match goal with
    | |- context [runChecks ?c ?g ?m ?x] =>
        pose proof (runChecks_filter isRestore (fun _ _ => eq_refl) (fun _ => eq_refl)
                      c g m x) as Fr;
        pose proof (runChecks_filter isHeld (fun _ _ => eq_refl) (fun _ => eq_refl)
                      c g m x) as Fh;
        destruct (runChecks c g m x) as [[[e |] |] w'']
    end; cbn [snd ret localsOf trace] in *;
      unfold restores, held in *; rewrite ?Fr, ?Fh;
      try (repeat split; [exact Hr' | rewrite Hh'; exact Hh | exact Hi]);
      try exact Hr'.
Qed.

Lemma prePushLoop_held :
  forall (config : Config) (lines : list string) (final : error)
         (st : locals) (w : World),
    (stashed st = true -> triedToStash st = true) ->
    match prePushLoop GitInitialCommit config lines final st w with
    | (Done r, w') =>
        restores (trace w') = restores (trace w)
        /\ held (trace w') + b2n (stashed st) = held (trace w) + b2n (stashed (snd r))
    | (Hung, w') => restores (trace w') = restores (trace w)
    end.
Proof.
  intros config lines final. induction lines as [| line lines IH]; intros st w Hinv.
  - cbn. auto.
  - cbn [prePushLoop]. unfold bind.
    pose proof (prePushLine_held config line st w Hinv) as Hl.
    destruct (prePushLine GitInitialCommit config line st w) as [[c |] w'];
      [| exact Hl].
    destruct Hl as [Hr [Hh Hi]].
    destruct c as [st' | err st']; cbn [localsOf] in Hh, Hi.
    + specialize (IH st' w' Hi).
      destruct (prePushLoop GitInitialCommit config lines final st' w') as [[r |] w''].
      * destruct IH as [Hr2 Hh2]. split; lia.
      * lia.
    + cbn [ret snd]. auto.
Qed.

(** X22.  A run of [runPrePush] that returns has called [Restore] once
    for a call to [Stash] that reported that it stashed something, also
    when that call returned an error, and not at all otherwise; a run that
    never returns has not called [Restore]. *)
Theorem runPrePush_restores_what_it_stashed :
  forall (config : Config) (stdin : Reader) (w : World),
    match runPrePush GitInitialCommit config stdin w with
    | (Done _, w') =>
        restores (trace w') + held (trace w) = restores (trace w) + held (trace w')
    | (Hung, w') => restores (trace w') = restores (trace w)
    end.
Proof.
  intros config stdin w. unfold runPrePush, ask. unfold bind at 1 2. cbv beta iota.
  unfold bind.
  match goal with
  | |- context [prePushLoop ?g ?c ?l ?f ?s w] =>
      pose proof (prePushLoop_held c l f s w) as Hl;
      destruct (prePushLoop g c l f s w) as [[[err st] |] w']
  end; cbn [snd fst stashed triedToStash] in *.
  - destruct Hl as [Hr Hh]; [discriminate |].
    rewrite prePushDeferred_eq. cbv zeta. cbn [trace].
    unfold restores, held in Hr, Hh.
    destruct (negb _), (stashed st); count_held; cbn [b2n] in Hh; lia.
  - apply Hl. discriminate.
Qed.

End HookProperties.

(** * Properties of cmd/covg *)

Section CoverageProperties.

Import Covg.

Variables float64 CoverageProfile Change Repo : Type.
Variable ProcessProfile :
  CoverageProfile -> CoverageSettings float64 -> string * option string.
Variable Subset : CoverageProfile -> string -> CoverageProfile.
Variable len : CoverageProfile -> nat.
Variable Getwd : string * option string.
Variable GetRepo : string -> string -> Repo * option string.
Variable Between :
  Repo -> Commit -> Commit -> list string -> option Change * option string.
Variable TestPackages : Change -> list string.
Variable RunProfile :
  Coverage float64 -> Change -> CoverageProfile * option string.
Variable GitInitialCommit : Commit.
Variable Current : Commit.

Lemma append_nil_r : forall s : string, (s ++ EmptyString)%string = s.
Proof. induction s as [| c s IH]; cbn; [reflexivity | rewrite IH; reflexivity]. Qed.

Lemma append_assoc :
  forall a b c : string, ((a ++ b) ++ c)%string = (a ++ b ++ c)%string.
Proof. induction a as [| x a IH]; intros b c; cbn; [reflexivity | rewrite IH; reflexivity]. Qed.

Lemma splitAfterFrom_tail :
  forall (tail seen : string),
    all dot tail = true ->
    splitAfterFrom seen tail newline = [(seen ++ tail)%string].
Proof.
  induction tail as [| c tail IH]; intros seen Hall.
  - cbn. rewrite append_nil_r. reflexivity.
  - cbn [all] in Hall. apply andb_true_iff in Hall. destruct Hall as [Hc Hall].
    unfold dot in Hc. apply negb_true_iff in Hc.
    cbn [splitAfterFrom]. rewrite Hc, IH by exact Hall.
    rewrite append_cons_assoc. reflexivity.
Qed.

Lemma splitAfterFrom_line :
  forall (l seen rest : string),
    all dot l = true ->
    splitAfterFrom seen (l ++ String newline rest) newline
    = (seen ++ l ++ String newline EmptyString)%string
      :: splitAfterFrom EmptyString rest newline.
Proof.
  induction l as [| c l IH]; intros seen rest Hall.
  - cbn [append splitAfterFrom]. rewrite Ascii.eqb_refl. reflexivity.
  - cbn [all] in Hall. apply andb_true_iff in Hall. destruct Hall as [Hc Hall].
    unfold dot in Hc. apply negb_true_iff in Hc.
    cbn [append splitAfterFrom]. rewrite Hc, IH by exact Hall.
    rewrite append_cons_assoc. reflexivity.
Qed.

Lemma fold_indentLine :
  forall (indent : string) (lines : list string) (tmp : string),
    fold_left (indentLine indent) lines tmp
    = (tmp ++ fold_left (indentLine indent) lines EmptyString)%string.
Proof.
  intros indent. induction lines as [| line lines IH]; intros tmp.
  - cbn. rewrite append_nil_r. reflexivity.
  - cbn [fold_left]. rewrite IH. rewrite (IH (indentLine indent EmptyString line)).
    unfold indentLine. destruct (1 <? String.length line); cbn [append];
      rewrite ?append_assoc; reflexivity.
Qed.

Lemma indented_lines :
  forall (indent : string) (lines : list string) (tail : string),
    Forall (fun l => all dot l = true) lines ->
    all dot tail = true ->
    fold_left (indentLine indent) (SplitAfter (unlines lines tail) newline) EmptyString
    = unlines
        (map (fun l => if String.eqb l EmptyString then l else (indent ++ l)%string) lines)
        (if 1 <? String.length tail then (indent ++ tail)%string else tail).
Proof.
  intros indent lines tail Hlines Htail. unfold SplitAfter.
  induction Hlines as [| l lines Hl Hlines IH].
  - cbn [unlines fold_right map]. rewrite splitAfterFrom_tail by exact Htail.
    cbn [append fold_left]. unfold indentLine. cbn [append].
    destruct (1 <? String.length tail); reflexivity.
  - cbn [unlines fold_right map]. fold (unlines lines tail).
    rewrite splitAfterFrom_line by exact Hl. cbn [append fold_left].
    rewrite fold_indentLine, IH. unfold indentLine. cbn [append].
    destruct l as [| c l'].
    + cbn. reflexivity.
    + assert (Hlen : (1 <? String.length (String c l' ++ String newline EmptyString)) = true).
      { destruct l'; reflexivity. }
      rewrite Hlen. cbn [String.eqb]. fold (unlines
        (map (fun l => if String.eqb l EmptyString then l else (indent ++ l)%string) lines)
        (if 1 <? String.length tail then (indent ++ tail)%string else tail)).
      rewrite !append_assoc. cbn [append]. reflexivity.
Qed.

(** X23.  With an indent, [printProfile] writes the lines of the report
    with the indent before each one that is not empty; what follows the
    last newline gets the indent only when it is longer than one byte. *)
Theorem printProfile_indents :
  forall (settings : CoverageSettings float64) (profile : CoverageProfile)
         (indent : string) (lines : list string) (tail : string) (err : option string),
    indent <> EmptyString ->
    Forall (fun l => all dot l = true) lines ->
    all dot tail = true ->
    ProcessProfile profile settings = (unlines lines tail, err) ->
    printProfile float64 CoverageProfile ProcessProfile settings profile indent
    = (unlines
         (map (fun l => if String.eqb l EmptyString then l else (indent ++ l)%string) lines)
         (if 1 <? String.length tail then (indent ++ tail)%string else tail)
       :: match err with
          | Some e => [(indent ++ e)%string]
          | None => []
          end,
       match err with
       | Some _ => false
       | None => true
       end).
Proof.
  intros settings profile indent lines tail err Hindent Hlines Htail Ep.
  unfold printProfile. rewrite Ep.
  rewrite (proj2 (String.eqb_neq _ _) Hindent). cbn [negb].
  rewrite indented_lines by assumption.
  destruct err; reflexivity.
Qed.

Lemma eachPackage_panics :
  forall (ProcessProfile1 ProcessProfile2 :
            CoverageProfile -> CoverageSettings float64 -> string * option string)
         (c : Coverage float64) (profile : CoverageProfile) (pkgs : list string)
         (err1 err2 : option covgError) (stdout1 stdout2 : list string),
    match fst (eachPackage float64 CoverageProfile ProcessProfile1 Subset len
                 c profile pkgs err1 stdout1),
          fst (eachPackage float64 CoverageProfile ProcessProfile2 Subset len
                 c profile pkgs err2 stdout2) with
    | Returned _, Returned _ => True
    | Panicked, Panicked => True
    | _, _ => False
    end.
Proof.
  intros P1 P2 c profile pkgs. induction pkgs as [| pkg pkgs IH];
    intros err1 err2 stdout1 stdout2.
  - exact I.
  - cbn [eachPackage]. destruct (pkgToDir pkg) as [d |]; [| exact I].
    destruct (negb (len (Subset profile d) =? 0)); [| apply IH].
    destruct (printProfile _ _ P1 _ _ _) as [printed1 ok1].
    destruct (printProfile _ _ P2 _ _ _) as [printed2 ok2].
    apply IH.
Qed.

(** X24.  Without -g, what [mainImpl] returns does not depend on the
    coverage found: it is the same whatever [ProcessProfile] gives, so a
    package whose coverage is refused does not make it return an error. *)
Theorem mainImpl_per_package_ignores_coverage :
  forall (ProcessProfile1 ProcessProfile2 :
            CoverageProfile -> CoverageSettings float64 -> string * option string)
         (minFlag maxFlag : float64) (verboseFlag : bool),
    fst (mainImpl float64 CoverageProfile Change Repo ProcessProfile1 Subset len
           Getwd GetRepo Between TestPackages RunProfile GitInitialCommit Current
           minFlag maxFlag false verboseFlag)
    = fst (mainImpl float64 CoverageProfile Change Repo ProcessProfile2 Subset len
             Getwd GetRepo Between TestPackages RunProfile GitInitialCommit Current
             minFlag maxFlag false verboseFlag).
Proof.
  intros P1 P2 minFlag maxFlag verboseFlag. unfold mainImpl.
  destruct Getwd as [cwd [e |]]; [reflexivity |].
  destruct (GetRepo cwd EmptyString) as [repo [e |]]; [reflexivity |].
  destruct (Between repo Current GitInitialCommit []) as [change [e |]]; [reflexivity |].
  destruct change as [change |]; [| reflexivity].
  match goal with
  | |- context [RunProfile ?c change] =>
      destruct (RunProfile c change) as [profile [e |]]; [reflexivity |];
      pose proof (eachPackage_panics P1 P2 c profile (TestPackages change)
                    None None [] []) as H
  end.
  destruct (eachPackage _ _ P1 _ _ _ _ _ _ _) as [[e1 |] stdout1];
    destruct (eachPackage _ _ P2 _ _ _ _ _ _ _) as [[e2 |] stdout2];
    cbn [fst] in *; (reflexivity || destruct H).
Qed.

(** X25.  Without -g, [mainImpl] never returns [silentError]: once the
    profile was computed it returns nil (or panics in [pkgToDir]), also
    when [printProfile] returned false for a package. *)
Theorem mainImpl_per_package_returns_nil :
  forall (minFlag maxFlag : float64) (verboseFlag : bool),
    match fst (mainImpl float64 CoverageProfile Change Repo ProcessProfile Subset len
                 Getwd GetRepo Between TestPackages RunProfile GitInitialCommit Current
                 minFlag maxFlag false verboseFlag) with
    | Returned (Some silentError) => False
    | Returned (Some (External msg)) =>
        snd Getwd = Some msg
        \/ snd (GetRepo (fst Getwd) EmptyString) = Some msg
        \/ snd (Between (fst (GetRepo (fst Getwd) EmptyString))
                  Current GitInitialCommit []) = Some msg
        \/ exists (c : Coverage float64) (change : Change),
             snd (RunProfile c change) = Some msg
    | Returned None => True
    | Panicked => True
    end.
Proof.
  intros minFlag maxFlag verboseFlag. unfold mainImpl.
  destruct Getwd as [cwd [e |]]; cbn [fst snd]; [left; reflexivity |].
  destruct (GetRepo cwd EmptyString) as [repo [e |]]; cbn [fst snd];
    [right; left; reflexivity |].
  destruct (Between repo Current GitInitialCommit []) as [change [e |]]; cbn [fst snd];
    [right; right; left; reflexivity |].
  destruct change as [change |]; [| exact I].
  match goal with
  | |- context [RunProfile ?c change] =>
      destruct (RunProfile c change) as [profile [e |]] eqn:Er
  end; cbn [fst].
  - right. right. right. eexists. exists change. rewrite Er. reflexivity.
  - destruct (eachPackage _ _ _ _ _ _ _ _ _ _) as [[e |] stdout]; exact I.
Qed.

End CoverageProperties.

(** * The hooks at work on the mock repository *)

Import Mock.

(** The run of C10 on a repository whose stash fails. *)
Lemma runPreCommit_stash_error_witness :
  Stash (env (world [] true))
  = ((false, Some (ErrOther "git stash failed")), tree [] true)
  /\ runPreCommit current (config [passes]) (world [] true)
     = (Done (Some (ErrOther "git stash failed")),
        {| env := tree [] true;
           trace := [] ++ [EvStash false (Some (ErrOther "git stash failed"))] |}).
Proof.
  split; [reflexivity |].
  apply (runPreCommit_stash_error current (config [passes]) (world [] true)).
  reflexivity.
Defined.

(** A run of [runPreCommit] with a check that fails: the stash is
    restored and the error of the checks is returned. *)
Lemma runPreCommit_restores_witness :
  Stash (env (world [] false)) = ((true, None), stashedTree)
  /\ Between current (HEAD stashedTree) [] stashedTree
     = ((Some (current, sha2), None), stashedTree)
  /\ runChecks (config [fails; passes]) (Some (current, sha2)) [PreCommit]
       {| env := stashedTree;
          trace := [EvStash true None;
                    EvBetween current sha2 [] (Some (current, sha2)) None] |}
     = (Done (Some (ErrChecksFailed 3000000000)), checked)
  /\ Restore stashedTree = (None, tree [] false)
  /\ exists result : option error,
       runPreCommit current (config [fails; passes]) (world [] false)
       = (Done result,
          {| env := tree [] false; trace := trace checked ++ [EvRestore None] |})
       /\ (forall e, Some (ErrChecksFailed 3000000000) = Some e -> result = Some e)
       /\ (Some (ErrChecksFailed 3000000000) = None -> result = None).
Proof.
  repeat (split; [vm_compute; reflexivity |]).
  apply (runPreCommit_restores current (config [fails; passes]) (world [] false)
           checked stashedTree stashedTree (tree [] false)
           (Some (current, sha2)) None (Some (ErrChecksFailed 3000000000)) None);
    vm_compute; reflexivity.
Defined.

(** C5 fails on a commit with one check that fails and is too slow: the
    edits are stashed, the second send of the check blocks on the channel of
    one, [runChecks] never comes back to [runPreCommit], and [Restore] is
    never called. *)
Lemma runPreCommit_never_restores :
  forall sched : list nat,
    Stash (env (world sched false))
    = ((true, None), treeAt sha2 "master" false true sched false)
    /\ runPreCommit current (config [failsLate]) (world sched false)
       = (Hung,
          {| env := treeAt sha2 "master" false true sched false;
             trace := [EvStash true None;
                       EvBetween current sha2 [] (Some (current, sha2)) None;
                       EvRun "failsLate" (Some (current, sha2))] |}).
Proof.
  intros sched. split; [reflexivity |].
  unfold runPreCommit, stash.
  erewrite bind_done; [| apply call_eq; reflexivity]. cbn [fst snd].
  unfold ask at 1. unfold bind at 1. cbn [env trace].
  unfold between. erewrite bind_done; [| apply call_eq; reflexivity]. cbn [fst snd].
  unfold bind at 1. rewrite runChecks_overflows; [reflexivity | vm_compute; lia].
Qed.

(** C1 as the spec states it fails on the line of the spec's own example:
    its remote-sha is all zeros, and yet the commit is checked out, a
    ChangeSet is computed and the enabled check is run. *)
Lemma prePush_zero_remote_sha_is_checked :
  newBranch
  = "refs/heads/a 1111111111111111111111111111111111111111 refs/heads/a 0000000000000000000000000000000000000000
"
  /\ nth 4 (FindStringSubmatch rePrePush (dropLast newBranch)) EmptyString
     = gitNilCommit
  /\ runPrePush root (config [passes]) (stdin newBranch) (world [] false)
     = (Done None,
        {| env := tree [] false;
           trace := [EvStash true None;
                     EvCheckout sha1 None;
                     EvBetween root sha1 [] (Some (root, sha1)) None;
                     EvRun "passes" (Some (root, sha1));
                     EvCheckout "master" None;
                     EvRestore None] |}).
Proof. repeat split; vm_compute; reflexivity. Qed.

(** The amended C1 on a line that deletes a ref. *)
Lemma prePushLine_deleted_ref_skipped_witness :
  nth 2 (FindStringSubmatch rePrePush (dropLast deletion)) EmptyString
  = gitNilCommit
  /\ prePushLine root (config [passes]) deletion start (world [] false)
     = (Done (Continue start), world [] false)
  /\ prePushLoop root (config [passes]) [deletion] io_EOF start (world [] false)
     = prePushLoop root (config [passes]) [] io_EOF start (world [] false).
Proof.
  split; [vm_compute; reflexivity |].
  apply (prePushLine_deleted_ref_skipped root (config [passes])
           deletion [] io_EOF start (world [] false)).
  vm_compute; reflexivity.
Defined.

(** C2 as the spec states it fails on a line whose local-sha is all zeros:
    nothing is computed for it, against the root reference or any other. *)
Lemma prePush_zero_local_sha_is_skipped :
  deletion
  = "refs/heads/a 0000000000000000000000000000000000000000 refs/heads/a 1111111111111111111111111111111111111111
"
  /\ nth 2 (FindStringSubmatch rePrePush (dropLast deletion)) EmptyString
  = gitNilCommit
  /\ runPrePush root (config [passes]) (stdin deletion) (world [] false)
     = (Done None, world [] false).
Proof. repeat split; vm_compute; reflexivity. Qed.

(** The amended C2 on the push of a new branch that comes after the
    deletion of a ref. *)
Lemma runPrePush_new_branch_from_root_witness :
  readLines (stdin (deletion ++ newBranch)) = [deletion] ++ newBranch :: []
  /\ prePushLoop root (config [passes]) [deletion] io_EOF
       {| curr := HEAD (env (world [] false)); stashed := false; triedToStash := false |}
       (world [] false)
     = (Done (None, start), world [] false)
  /\ nth 4 (FindStringSubmatch rePrePush (dropLast newBranch)) EmptyString = gitNilCommit
  /\ nth 2 (FindStringSubmatch rePrePush (dropLast newBranch)) EmptyString = sha1
  /\ moveTo sha1 start (world [] false)
     = (Done (None, {| curr := sha1; stashed := true; triedToStash := true |}), moved)
  /\ Between root sha1 [] (env moved) = ((Some (root, sha1), None), env moved)
  /\ exists tl : list Event,
       trace (snd (runPrePush root (config [passes]) (stdin (deletion ++ newBranch))
                     (world [] false)))
       = trace moved ++ EvBetween root sha1 [] (Some (root, sha1)) None :: tl.
Proof.
  repeat (split; [vm_compute; reflexivity |]).
  apply (runPrePush_new_branch_from_root root (config [passes])
           (stdin (deletion ++ newBranch)) [deletion] newBranch [] start
           {| curr := sha1; stashed := true; triedToStash := true |}
           (world [] false) (world [] false) moved (Some (root, sha1)) None (env moved));
    vm_compute; [reflexivity | reflexivity | reflexivity | discriminate | reflexivity
                | reflexivity].
Defined.



(** The order of the calls to [Run] is the scheduler's: with another
    choice the second check is run before the first. *)
Example runChecks_second_check_first :
  @runChecks Tree Diff (shuffled [1]) (config [passes; late]) None [PrePush]
    (world [] false)
  = (Done (Some (ErrChecksFailed 3000000000)),
     {| env := tree [] false;
        trace := [EvRun "late" None; EvRun "passes" None;
                  EvPrint (ErrCheckTook "late" 12000000000)] |}).
Proof. reflexivity. Qed.

(** C4 fails on the push of another branch followed by the branch that is
    checked out: the second line checks the original commit out by its
    hash, so [curr] is [previous] again when the deferred function runs,
    nothing is checked out there, and the run that started on master ends
    with a detached HEAD. *)
Lemma runPrePush_leaves_head_detached :
  Ref (env (world [] false)) = "master"
  /\ runPrePush root (config [passes])
       (stdin (refLine sha1 sha3 ++ refLine sha2 sha3)) (world [] false)
     = (Done None,
        {| env := treeAt sha2 EmptyString true false [] false;
           trace := [EvStash true None;
                     EvCheckout sha1 None;
                     EvBetween sha3 sha1 [] (Some (sha3, sha1)) None;
                     EvRun "passes" (Some (sha3, sha1));
                     EvCheckout sha2 None;
                     EvBetween sha3 sha2 [] (Some (sha3, sha2)) None;
                     EvRun "passes" (Some (sha3, sha2));
                     EvRestore None] |}).
Proof. split; vm_compute; reflexivity. Qed.

(** C6 fails next to a check that fails and is too slow: the two checks
    have three errors to send on a channel of two, so whatever the order
    one send blocks, [runChecks] never returns and the failure of the check
    that passed too slowly is never reported. *)
Lemma runChecks_slow_check_unreported :
  forall sched : list nat,
    Run late None (tree sched false) = None
    /\ (Seconds 10 < Sub (took late None (tree sched false)))%Z
    /\ runChecks (config [failsLate; late]) None [PrePush] (world sched false)
       = (Hung,
          {| env := tree sched false;
             trace := [EvRun "failsLate" None; EvRun "late" None] |}).
Proof.
  intros sched. split; [reflexivity | split; [reflexivity |]].
  rewrite runChecks_overflows; [reflexivity | vm_compute; lia].
Qed.

(** C7 fails on a single check that fails and is too slow: its second
    send blocks on the channel of one, and [runChecks] gives no result at
    all. *)
Lemma runChecks_no_result :
  forall sched : list nat,
    Run failsLate None (tree sched false) = Some (ErrOther "exit status 1")
    /\ (Seconds 10 < Sub (took failsLate None (tree sched false)))%Z
    /\ runChecks (config [failsLate]) None [PrePush] (world sched false)
       = (Hung, {| env := tree sched false; trace := [EvRun "failsLate" None] |}).
Proof.
  intros sched. split; [reflexivity | split; [reflexivity |]].
  rewrite runChecks_overflows; [reflexivity | vm_compute; lia].
Qed.

(** C8 fails on a check that fails and is too slow, next to one that
    passes: two failures are recorded for the first. *)
Lemma runChecks_two_failures_for_one_check :
  forall sched : list nat,
    runChecks (config [failsLate; passes]) None [PrePush] (world sched false)
    = (Done (Some (ErrChecksFailed 3000000000)),
       {| env := tree sched false;
          trace := [EvRun "failsLate" None;
                    EvRun "passes" None;
                    EvPrint (ErrOther "exit status 1");
                    EvPrint (ErrCheckTook "failsLate" 11000000000)] |}).
Proof.
  intros sched. rewrite runChecks_eq.
  destruct sched as [| [| k] [| [| k'] sched]]; vm_compute; reflexivity.
Qed.

(** * The commands at work on the mock repository *)

Import MockCommands.

(** The version of the tool, written from its numbers and read back. *)
Lemma parseVersion_decimal_witness :
  Join (map decimal [0; 4; 4]%Z) "." = version
  /\ parseVersion (Join (map decimal [0; 4; 4]%Z) ".") = Some [0; 4; 4]%Z.
Proof.
  split; [reflexivity |].
  apply (parseVersion_decimal [0; 4; 4]%Z); [discriminate |].
  repeat constructor; lia.
Defined.

Lemma parseVersion_shape_witness :
  [1; 12; 0]%Z <> []
  /\ List.length [1; 12; 0]%Z = List.length (Split "1.12.0" ".")
  /\ Forall (fun z => (- 2 ^ 31 <= z < 2 ^ 31)%Z) [1; 12; 0]%Z
  /\ ~ In EmptyString (Split "1.12.0" ".").
Proof. apply (parseVersion_shape "1.12.0" [1; 12; 0]%Z). reflexivity. Defined.

(** The tool at 0.4.4 and a config that asks for 0.4.7. *)
Lemma versionLoop_refuses_iff_witness :
  versionLoop [0; 4; 4]%Z 0 [0; 4; 7]%Z = false
  <-> exists i : nat,
        i < List.length [0; 4; 7]%Z
        /\ (forall j : nat, j < i -> nth j [0; 4; 4]%Z 0%Z = nth j [0; 4; 7]%Z 0%Z)
        /\ (nth i [0; 4; 4]%Z 0 < nth i [0; 4; 7]%Z 0)%Z.
Proof.
  apply (versionLoop_refuses_iff [0; 4; 7]%Z [0; 4; 4]%Z).
  repeat constructor; lia.
Defined.

Lemma versionLoop_newer_tool_witness :
  versionLoop [0; 5]%Z 0 [0; 4]%Z = true.
Proof.
  apply (versionLoop_newer_tool [0; 4]%Z [0; 4; 4]%Z [0; 5]%Z);
    [repeat constructor; lia | repeat constructor; lia | reflexivity | reflexivity].
Defined.

Lemma versionLoop_trailing_zeros_witness :
  versionLoop [0; 4; 4]%Z 0 ([0; 4]%Z ++ repeat 0%Z 2)
  = versionLoop [0; 4; 4]%Z 0 [0; 4]%Z.
Proof.
  apply (versionLoop_trailing_zeros [0; 4]%Z [0; 4; 4]%Z 2).
  repeat constructor; lia.
Defined.

(** A config that asks for the version 1.x is loaded by the tool at 0.4.4. *)
Lemma loadConfigFile_unreadable_version_witness :
  parseVersion "1.x" = None
  /\ loadConfigFile string (fun c => c) (disk "1.x") Some "/repo/pre-commit-go.yml"
     = Some "1.x".
Proof.
  split; [reflexivity |].
  apply (loadConfigFile_unreadable_version string (fun c => c) (disk "1.x") Some
           "/repo/pre-commit-go.yml" "1.x" "1.x"); reflexivity.
Defined.

Lemma loadConfig_sound_witness :
  load "0.4.0" "/repo/pre-commit-go.yml" = ("/repo/pre-commit-go.yml", "0.4.0")
  /\ (("/repo/pre-commit-go.yml" = "<N/A>" /\ "0.4.0" = version)
      \/ exists content : string,
           disk "0.4.0" "/repo/pre-commit-go.yml" = Some content
           /\ Some content = Some "0.4.0"
           /\ (forall v : list Z,
                  parseVersion "0.4.0" = Some v ->
                  versionLoop parsedVersion 0 v = true)).
Proof.
  split; [reflexivity |].
  apply (loadConfig_sound string (fun c => c) (disk "0.4.0") Some (fun v => v) isAbs
           (fun l => Join l "/") None "/repo" None "linux"
           "/repo/pre-commit-go.yml" "/repo/pre-commit-go.yml" "0.4.0").
  reflexivity.
Defined.

Lemma processModes_error_witness :
  processModes modeString "pc,,bogus,ci" = inr (ErrInvalidMode "bogus")
  /\ exists (before : list string) (p : string) (after : list string),
       Split "pc,,bogus,ci" "," = before ++ p :: after
       /\ ErrInvalidMode "bogus" = ErrInvalidMode p
       /\ p <> EmptyString
       /\ modesOf modeString p = None
       /\ Forall (fun q => q = EmptyString \/ modesOf modeString q <> None) before.
Proof.
  split; [reflexivity |].
  apply (processModes_error modeString "pc,,bogus,ci" (ErrInvalidMode "bogus")).
  reflexivity.
Defined.

(** One enabled check that misses two tools. *)
Lemma cmdInstallPrereq_blocks_witness :
  cmdInstallPrereq (config [lint]) [Lint] false (world [] false)
  = (Hung, world [] false).
Proof.
  apply (cmdInstallPrereq_blocks (config [lint]) [Lint] false (world [] false)).
  vm_compute. lia.
Defined.

Lemma cmdInstallPrereq_no_update_witness :
  exists listed : list string,
    StronglySorted (fun a b => String.leb a b = true) listed
    /\ NoDup listed
    /\ (forall u : string,
           In u listed
           <-> exists (check : @Check Mock.Tree Mock.Diff)
                      (prereq : CheckPrerequisite Mock.Tree),
                 In check (fst (EnabledChecks (config [lint; passes]) [Lint]))
                 /\ In prereq (GetPrerequisites check)
                 /\ IsPresent prereq (env (world [1] false)) = false
                 /\ URL prereq = u)
    /\ cmdInstallPrereq (config [lint; passes]) [Lint] true (world [1] false)
       = (Done (match listed with
                | [] => None
                | _ :: _ => Some (ErrPrereqMissing listed)
                end),
          world [1] false).
Proof.
  apply (cmdInstallPrereq_no_update (config [lint; passes]) [Lint] (world [1] false)).
  vm_compute. lia.
Defined.

Lemma cmdInstallPrereq_installs_witness :
  missingUrls [lint; passes] (tree [1] false) = urls
  /\ exists result : option cmdError,
       cmdInstallPrereq (config [lint; passes]) [Lint] false (world [1] false)
       = (Done result, {| env := tree [1] false; trace := [] |})
       /\ (result = None <-> EmptyString = EmptyString /\ @None error = None).
Proof.
  split; [reflexivity |].
  apply (cmdInstallPrereq_installs (config [lint; passes]) [Lint] (world [1] false)
           EmptyString None (tree [1] false));
    [vm_compute; lia | discriminate | reflexivity].
Defined.

Lemma cmdRunHook_ci_leaves_tree_witness :
  mutations
    (trace (snd (cmdRunHook root current modeString (config [lint; passes])
                   "continuous-integration" false (stdin EmptyString) (world [] false))))
  = mutations (trace (world [] false)).
Proof.
  apply (cmdRunHook_ci_leaves_tree root current modeString (config [lint; passes])
           "continuous-integration" false (stdin EmptyString) (world [] false));
    [discriminate | discriminate | reflexivity].
Defined.

Lemma cmdRunHook_ci_missing_prerequisite_witness :
  cmdRunHook root current modeString (config [lint; passes])
    "continuous-integration" true (stdin EmptyString) (world [] false)
  = (Done (Some (ErrPrereqMissing (missingUrls [lint; passes] (tree [] false)))),
     {| env := tree [] false;
        trace := [] ++ [EvBetween current root [] (Some (current, root)) None] |}).
Proof.
  apply (cmdRunHook_ci_missing_prerequisite root current modeString
           (config [lint; passes]) "continuous-integration" (stdin EmptyString)
           (world [] false) (Some (current, root)) (tree [] false));
    [discriminate | discriminate | reflexivity | reflexivity | vm_compute; lia
    | discriminate].
Defined.

(** The line of a new branch, cut by [rePrePush]. *)
Lemma rePrePush_fields_witness :
  exists g1 g2 g3 g4 : string,
    FindStringSubmatch rePrePush (dropLast newBranch)
    = [dropLast newBranch; g1; g2; g3; g4]
    /\ dropLast newBranch = (g1 ++ " " ++ g2 ++ " " ++ g3 ++ " " ++ g4)%string
    /\ g1 <> EmptyString /\ all dot g1 = true
    /\ String.length g2 = 40 /\ all hex g2 = true
    /\ g3 <> EmptyString /\ all dot g3 = true
    /\ String.length g4 = 40 /\ all hex g4 = true.
Proof.
  apply (rePrePush_fields (dropLast newBranch)
           (FindStringSubmatch rePrePush (dropLast newBranch)));
    [reflexivity | vm_compute; discriminate].
Defined.

Lemma rePrePush_parses_witness :
  FindStringSubmatch rePrePush ("refs/heads/a " ++ sha1 ++ " refs/heads/b " ++ sha3)
  = [("refs/heads/a " ++ sha1 ++ " refs/heads/b " ++ sha3)%string;
     "refs/heads/a"; sha1; "refs/heads/b"; sha3].
Proof.
  apply (rePrePush_parses "refs/heads/a" sha1 "refs/heads/b" sha3);
    try discriminate; reflexivity.
Defined.

Lemma runPrePush_unterminated_line_witness :
  runPrePush root (config [passes])
    {| unread := unread (stdin twoLines) ++ halfLine; readErr := readErr (stdin twoLines) |}
    (world [] false)
  = runPrePush root (config [passes]) (stdin twoLines) (world [] false).
Proof.
  apply (runPrePush_unterminated_line root (config [passes]) (stdin twoLines)
           halfLine (world [] false)).
  reflexivity.
Defined.

Lemma runPrePush_malformed_first_line_witness :
  runPrePush root (config [passes]) (stdin (halfLine ++ String newline twoLines))
    (world [] false)
  = (Done (Some (ErrUnexpectedStdin (halfLine ++ String newline EmptyString))),
     world [] false).
Proof.
  apply (runPrePush_malformed_first_line root (config [passes])
           (stdin (halfLine ++ String newline twoLines))
           (halfLine ++ String newline EmptyString)
           [refLine sha1 gitNilCommit; refLine sha3 sha1] (world [] false));
    [reflexivity | vm_compute; discriminate].
Defined.

(** A report of two lines, the second one empty, and one byte after them. *)
Lemma printProfile_indents_witness :
  Covg.printProfile Z report (fun p _ => p)
    {| Covg.MinCoverage := 50%Z; Covg.MaxCoverage := 100%Z |} refused "  "
  = (Covg.unlines
       (map (fun l => if String.eqb l EmptyString then l else ("  " ++ l)%string)
            ["main.go:12 f 40.0%"; EmptyString])
       (if 1 <? String.length "x" then ("  " ++ "x")%string else "x")
     :: match Some "coverage 40.0% < 50.0%" with
        | Some e => [("  " ++ e)%string]
        | None => []
        end,
     match Some "coverage 40.0% < 50.0%" with
     | Some _ => false
     | None => true
     end).
Proof.
  apply (printProfile_indents Z report (fun p _ => p)
           {| Covg.MinCoverage := 50%Z; Covg.MaxCoverage := 100%Z |} refused "  "
           ["main.go:12 f 40.0%"; EmptyString] "x" (Some "coverage 40.0% < 50.0%"));
    [discriminate | repeat constructor | reflexivity | reflexivity].
Defined.

(** The report [refused] makes covg fail with -g and not without. *)
Example covg_global_fails :
  fst (covg refused true) = Covg.Returned (Some Covg.silentError).
Proof. reflexivity. Qed.

Example covg_per_package_succeeds :
  fst (covg refused false) = Covg.Returned None.
Proof. reflexivity. Qed.
